(** * elftools.common.construct_utils

    A shallow embedding of [src/elftools/common/construct_utils.py]: the
    helpers that pyelftools layers on the [construct] parsing library
    (LEB128 decoding, [RepeatUntilExcluding], [StreamOffset],
    [EmbeddableStruct] / [Embed] and [CStringBytes]), followed by the
    properties that the natural-language specification states about them.

    Python integers are unbounded, so they are [Z]; the bit operators
    [<<], [&] and [|] are [Z.shiftl], [Z.land] and [Z.lor] (two's
    complement on negative numbers, as in Python).  A [bytes] object is a
    [list byte].  Exceptions are values of [exn]; a parser returns an
    [outcome] which keeps the stream and the context as they were when
    the call returned or raised, because both are mutated in place. *)

From Stdlib Require Import ZArith List String Ascii Bool Lia.
From Stdlib Require Import Strings.Byte.
Import ListNotations.
Open Scope Z_scope.

(** ** Python builtins used by the module *)

Module Py.

(** [ord(b)] for a [bytes] object of length one. *)
Definition ord (b : byte) : Z := Z.of_N (Byte.to_N b).

(** [bytes([z])], given as its single byte; codes outside [0..255], which
    Python refuses, are never used. *)
Definition byte_of_int (z : Z) : byte :=
  match Byte.of_N (Z.to_N z) with
  | Some b => b
  | None => x00
  end.

(** [obj[-1]] on a list: [None] stands for the [IndexError] raised on an
    empty list. *)
Fixpoint last_item {A : Type} (l : list A) : option A :=
  match l with
  | [] => None
  | [a] => Some a
  | _ :: l' => last_item l'
  end.

End Py.

(** ** Exceptions *)

(** [EndOfStream] is the stream error of the runtime (raised by a read that
    finds fewer bytes than asked for); the other constructors are the
    exception classes named in the source.  The [path] argument of the
    constructs is carried where the source passes [path=path]. *)
Inductive exn : Type :=
| EndOfStream (path : string)
| NotImplementedError (msg : string)
| SizeofError (msg : string) (path : string)
| StopFieldError
| IndexError
| AttributeError (name : string)
| TypeError.

Inductive result (A : Type) : Type :=
| Ok (a : A)
| Error (e : exn).
Arguments Ok {A} a.
Arguments Error {A} e.

(** ** LEB128 adapters *)

(** [_ULEB128Adapter._decode]:
<<
    value = 0
    for b in reversed(obj):
        value = (value << 7) + (ord(b) & 0x7F)
    return value
>>
    [obj] is the list of one-byte [bytes] objects read by [_LEB128_reader]. *)
Definition _ULEB128Adapter_decode (obj : list byte) : result Z :=
  Ok (fold_left (fun value b => Z.shiftl value 7 + Z.land (Py.ord b) 0x7F)
                (rev obj) 0).

(** [_SLEB128Adapter._decode]:
<<
    value = 0
    for b in reversed(obj):
        value = (value << 7) + (ord(b) & 0x7F)
    if ord(obj[-1]) & 0x40:
        # negative -> sign extend
        value |= - (1 << (7 * len(obj)))
    return value
>>
    [obj[-1]] raises [IndexError] on the empty list. *)
Definition _SLEB128Adapter_decode (obj : list byte) : result Z :=
  let value :=
    fold_left (fun value b => Z.shiftl value 7 + Z.land (Py.ord b) 0x7F)
              (rev obj) 0 in
  match Py.last_item obj with
  | None => Error IndexError
  | Some last =>
      if negb (Z.land (Py.ord last) 0x40 =? 0)
      then Ok (Z.lor value (- Z.shiftl 1 (7 * Z.of_nat (List.length obj))))
      else Ok value
  end.

(** ** The specification's wording of the decoders *)

Module Spec.

(** "accumulate [value = (value << 7) | (byte & 0x7F)] iterating from the
    last byte to the first". *)
Definition accumulate (run : list byte) : Z :=
  fold_right (fun b value => Z.lor (Z.shiftl value 7) (Z.land (Py.ord b) 0x7F))
             0 run.

(** "if bit 6 (0x40) of the terminal byte is set, sign-extend by OR-ing
    in [-(1 << (7 * run_length))]". *)
Definition sign_extend (run : list byte) (terminal : byte) (value : Z) : Z :=
  if Z.testbit (Py.ord terminal) 6
  then Z.lor value (- Z.shiftl 1 (7 * Z.of_nat (List.length run)))
  else value.

(** A byte run (data model): non-empty, the last byte is terminal (high
    bit clear) and all the bytes before it are continuation bytes. *)
Fixpoint byte_run (run : list byte) : bool :=
  match run with
  | [] => false
  | [b] => Py.ord b <? 0x80
  | b :: rest => (0x80 <=? Py.ord b) && byte_run rest
  end.

(** Modelled from the spec: the "reference LEB128 encoder" [encode_bytes]
    of the round-trip property, which the repository does not contain; it
    is the unsigned encoding algorithm of the DWARF standard:
<<
  do {
    byte = low order 7 bits of value;
    value >>= 7;
    if (value != 0) set high order bit of byte;
    emit byte;
  } while (value != 0);
>>
    The loop runs once per 7-bit digit; [fuel] bounds the iterations. *)
Fixpoint encode_loop (fuel : nat) (value : Z) : list byte :=
  match fuel with
  | O => []
  | S fuel' =>
      let b := Z.land value 0x7F in
      let value' := Z.shiftr value 7 in
      if value' =? 0
      then [Py.byte_of_int b]
      else Py.byte_of_int (Z.lor b 0x80) :: encode_loop fuel' value'
  end.

Definition encode_bytes (n : Z) : list byte :=
  encode_loop (S (Z.to_nat (Z.log2 n))) n.

End Spec.

(** ** The construct runtime

    The classes below are imported by the module from the [construct]
    library; they are not part of [construct_utils.py].  Each is written
    here as far as the module relies on it. *)

Module construct.

(** Modelled from the spec: the stream abstraction of the runtime
    ("byte-level read, write, tell"), a byte buffer with a cursor. *)
Record Stream : Type := mkStream { data : list byte; pos : nat }.

(** [stream.tell()] *)
Definition tell (stream : Stream) : Z := Z.of_nat (pos stream).

(** [stream.read(n)]: at most [n] bytes from the cursor on; the cursor
    moves past the bytes returned. *)
Definition read (stream : Stream) (n : nat) : list byte * Stream :=
  let got := firstn n (skipn (pos stream) (data stream)) in
  (got, mkStream (data stream) (pos stream + List.length got)).

(** The bytes between the cursor and the end of the stream. *)
Definition remaining (stream : Stream) : list byte :=
  skipn (pos stream) (data stream).

(** Objects that the runtime stores in a context or a result by
    reference: the stream ([_io]), the struct's table of subcons
    ([_subcons]), the outermost struct context ([_root]), the top-level
    context ([_params]) and the result under construction ([_parent]). *)
Inductive handle : Type :=
| the_stream | the_subcons | the_root | the_params | the_parent.

#[local] Set Warnings "-register-all".

(** The objects that a [Container] holds.  A [Container] is an
    insertion-ordered [dict] whose attributes are its items ([c.k] is
    [c["k"]]); its keys are [str] or [None]. *)
Inductive value : Type :=
| VNone
| VBool (b : bool)
| VInt (z : Z)
| VBytes (l : list byte)
| VRef (h : handle)
| VContainer (items : list (option string * value)).

Definition key : Type := option string.
Definition Container : Type := list (key * value).

Definition key_eqb (k1 k2 : key) : bool :=
  match k1, k2 with
  | None, None => true
  | Some s1, Some s2 => String.eqb s1 s2
  | _, _ => false
  end.

(** [c[k]] when present. *)
Fixpoint getitem (c : Container) (k : key) : option value :=
  match c with
  | [] => None
  | (k', v) :: c' => if key_eqb k' k then Some v else getitem c' k
  end.

(** [c[k] = v]: an existing key keeps its place, a new key goes last. *)
Fixpoint setitem (c : Container) (k : key) (v : value) : Container :=
  match c with
  | [] => [(k, v)]
  | (k', v') :: c' =>
      if key_eqb k' k then (k', v) :: c' else (k', v') :: setitem c' k v
  end.

(** [c.update(other)] for a mapping [other]: its items are written into
    [c] one by one, in their order. *)
Definition update (c other : Container) : Container :=
  fold_left (fun c kv => setitem c (fst kv) (snd kv)) other c.

(** [c.get(k, default)] *)
Definition get (c : Container) (k : key) (default : value) : value :=
  match getitem c k with
  | Some v => v
  | None => default
  end.

(** [c.name] (attribute access): [AttributeError] when absent. *)
Definition getattr (c : Container) (name : string) : result value :=
  match getitem c (Some name) with
  | Some v => Ok v
  | None => Error (AttributeError name)
  end.

(** What a [_parse] or a [_build] returns here: [None], a [bool], an
    [int], a [bytes] object or a [Container], the last one given with its
    items.  The objects of [handle] occur as entries of contexts and of
    results only. *)
Inductive parsed : Type :=
| PNone
| PBool (b : bool)
| PInt (z : Z)
| PBytes (l : list byte)
| PContainer (items : Container).

(** A returned object as an entry of a [Container]. *)
Definition to_value (p : parsed) : value :=
  match p with
  | PNone => VNone
  | PBool b => VBool b
  | PInt z => VInt z
  | PBytes l => VBytes l
  | PContainer items => VContainer items
  end.

(** Truth value of an object, as [if x:] tests it. *)
Definition truthy (p : parsed) : bool :=
  match p with
  | PNone => false
  | PBool b => b
  | PInt z => negb (z =? 0)
  | PBytes l => match l with [] => false | _ => true end
  | PContainer items => match items with [] => false | _ => true end
  end.

(** Truth value of a construct's [name] ([None] or a [str]). *)
Definition truthy_name (name : option string) : bool :=
  match name with
  | None => false
  | Some s => negb (String.eqb s EmptyString)
  end.

(** The entries that [Container] shows and compares: keys that are
    strings starting with an underscore are the runtime's own. *)
Definition private_key (k : key) : bool :=
  match k with
  | Some (String "_" _) => true
  | _ => false
  end.

Definition public_items (c : Container) : Container :=
  filter (fun kv => negb (private_key (fst kv))) c.

(** What a call leaves behind: the value returned or the exception
    raised, with the stream and the caller's context as the call left
    them (both are objects mutated in place). *)
Inductive outcome (A : Type) : Type :=
| Return (a : A) (stream : Stream) (context : Container)
| Raise (e : exn) (stream : Stream) (context : Container).
Arguments Return {A} a stream context.
Arguments Raise {A} e stream context.

(** [_parse(self, stream, context, path)] and
    [_build(self, obj, stream, context, path)]. *)
Definition Parser (A : Type) : Type :=
  Stream -> Container -> string -> outcome A.
Definition Builder (A : Type) : Type :=
  A -> Stream -> Container -> string -> outcome parsed.

(** Modelled from the spec: the runtime's checked read; it "fails with
    EndOfStream" when "a read requires more bytes than remain". *)
Definition stream_read (n : nat) : Parser (list byte) :=
  fun stream context path =>
    let (got, stream') := read stream n in
    if Nat.eqb (List.length got) n
    then Return got stream' context
    else Raise (EndOfStream path) stream' context.

(** [Bytes(1)._parse]: one byte read with [stream_read]; the [bytes]
    object of length one is given as its byte. *)
Definition Bytes1 : Parser byte :=
  fun stream context path =>
    match stream_read 1 stream context path with
    | Return [b] stream' context' => Return b stream' context'
    | Return _ stream' context' => Raise (EndOfStream path) stream' context'
    | Raise e stream' context' => Raise e stream' context'
    end.

(** A construct as a struct sees it: its [name], whether it is an
    instance of [Embed], and [_parsereport] (which is [_parse] followed
    by an optional hook that no construct here installs). *)
Record Construct : Type := mkConstruct {
  name : option string;
  isinstance_Embed : bool;
  _parsereport : Parser parsed
}.

(** ["name" / subcon] ([Renamed]): the name of the field, parsing
    forwarded with the path extended. *)
Definition Renamed (newname : string) (subcon : Construct) : Construct :=
  mkConstruct (Some newname) false
    (fun stream context path =>
       _parsereport subcon stream context (path ++ " -> " ++ newname)%string).

(** [Renamed._build]: building is forwarded to the subcon as it is, with
    the path extended; the name given by ["name" / subcon] is the
    wrapper's, the subcon keeps its own. *)
Definition Renamed_build {A : Type} (newname : string)
    (subcon_build : Builder A) : Builder A :=
  fun obj stream context path =>
    subcon_build obj stream context (path ++ " -> " ++ newname)%string.

(** [Byte]: one unsigned byte as an integer. *)
Definition Byte : Construct :=
  mkConstruct None false
    (fun stream context path =>
       match Bytes1 stream context path with
       | Return b stream' context' => Return (PInt (Py.ord b)) stream' context'
       | Raise e stream' context' => Raise e stream' context'
       end).

(** [StopIf(condfunc)]: raises the stop signal when the condition holds
    in the context, returns [None] otherwise; reads nothing. *)
Definition StopIf (condfunc : Container -> bool) : Construct :=
  mkConstruct None false
    (fun stream context path =>
       if condfunc context
       then Raise StopFieldError stream context
       else Return PNone stream context).

(** How the field loop of a struct ends: all the fields done, [break]
    on the stop signal, or another exception. *)
Inductive fields_end : Type :=
| Completed (obj : Container) (stream : Stream) (context : Container)
| Stopped (obj : Container) (stream : Stream) (context : Container)
| Failed (e : exn) (stream : Stream) (context : Container).

(** The context that a struct builds for its fields, as
    [EmbeddableStruct._parse] does it (the runtime's [Struct._parse] does
    the same without [_parent]):
<<
  context = Container(_ = context, _params = context._params, _root = None,
      _parsing = context._parsing, _building = context._building,
      _sizing = context._sizing, _subcons = self._subcons, _io = stream,
      _index = context.get("_index", None) [, _parent = obj])
  context._root = context._.get("_root", context)
>>
    The keyword arguments are evaluated from left to right. *)
Definition struct_context (context : Container) (with_parent : bool)
  : result Container :=
  match getattr context "_params" with
  | Error e => Error e
  | Ok _params =>
  match getattr context "_parsing" with
  | Error e => Error e
  | Ok _parsing =>
  match getattr context "_building" with
  | Error e => Error e
  | Ok _building =>
  match getattr context "_sizing" with
  | Error e => Error e
  | Ok _sizing =>
      let child :=
        [ (Some "_", VContainer context);
          (Some "_params", _params);
          (Some "_root", VNone);
          (Some "_parsing", _parsing);
          (Some "_building", _building);
          (Some "_sizing", _sizing);
          (Some "_subcons", VRef the_subcons);
          (Some "_io", VRef the_stream);
          (Some "_index", get context (Some "_index") VNone) ]%string
        ++ (if with_parent then [(Some "_parent"%string, VRef the_parent)] else [])
      in
      Ok (setitem child (Some "_root"%string)
                  (get context (Some "_root"%string) (VRef the_root)))
  end end end end.

(** [Struct._parse] of the runtime, the method that
    [EmbeddableStruct._parse] overrides: the same loop without the
    [Embed] branch and without [_parent]. *)
Fixpoint Struct_fields (subcons : list Construct) (obj : Container)
    (stream : Stream) (context : Container) (path : string) : fields_end :=
  match subcons with
  | [] => Completed obj stream context
  | sc :: subcons' =>
      match _parsereport sc stream context path with
      | Return subobj stream' context' =>
          if truthy_name (name sc)
          then Struct_fields subcons'
                 (setitem obj (name sc) (to_value subobj)) stream'
                 (setitem context' (name sc) (to_value subobj)) path
          else Struct_fields subcons' obj stream' context' path
      | Raise StopFieldError stream' context' => Stopped obj stream' context'
      | Raise e stream' context' => Failed e stream' context'
      end
  end.

Definition Struct_parse (subcons : list Construct) : Parser parsed :=
  fun stream context path =>
    let obj := setitem [] (Some "_io"%string) (VRef the_stream) in
    match struct_context context false with
    | Error e => Raise e stream context
    | Ok child =>
        match Struct_fields subcons obj stream child path with
        | Completed obj' stream' _ => Return (PContainer obj') stream' context
        | Stopped obj' stream' _ => Return (PContainer obj') stream' context
        | Failed e stream' _ => Raise e stream' context
        end
    end.

Definition Struct (subcons : list Construct) : Construct :=
  mkConstruct None false (Struct_parse subcons).

Section Loops.
Context {E : Type}.

(** The [predicate] argument of [RepeatUntil] and of
    [RepeatUntilExcluding]: a function of the element, the list and
    the context (given by the truth value of what it returns), or an
    object that is not callable. *)
Inductive predicate_object : Type :=
| function (f : E -> list E -> Container -> bool)
| constant (v : value).

(** Modelled from the spec: the runtime's [RepeatUntil._parse] with a
    callable predicate (the byte-run reader "must read at least one
    byte", stops after the first element that satisfies the predicate
    and returns "the accumulated sequence including" it).  The loop has
    no bound of its own; [fuel] bounds the number of iterations and
    [None] means that the bound was reached. *)
Fixpoint RepeatUntil_loop (f : E -> list E -> Container -> bool)
    (subcon : Parser E) (fuel : nat) (i : Z) (obj : list E)
    (stream : Stream) (context : Container) (path : string)
  : option (outcome (list E)) :=
  match fuel with
  | O => None
  | S fuel' =>
      let context := setitem context (Some "_index"%string) (VInt i) in
      match subcon stream context path with
      | Raise e stream' context' => Some (Raise e stream' context')
      | Return e stream' context' =>
          let obj := obj ++ [e] in
          if f e obj context'
          then Some (Return obj stream' context')
          else RepeatUntil_loop f subcon fuel' (i + 1) obj stream' context' path
      end
  end.

Definition RepeatUntil_parse (f : E -> list E -> Container -> bool)
    (subcon : Parser E) (fuel : nat)
  : Stream -> Container -> string -> option (outcome (list E)) :=
  RepeatUntil_loop f subcon fuel 0 [].

End Loops.

(** [Adapter._parse]: the subcon's result handed to [_decode]. *)
Definition Adapter_parse {A B : Type}
    (subcon : Stream -> Container -> string -> option (outcome A))
    (_decode : A -> result B)
  : Stream -> Container -> string -> option (outcome B) :=
  fun stream context path =>
    match subcon stream context path with
    | None => None
    | Some (Raise e stream' context') => Some (Raise e stream' context')
    | Some (Return obj stream' context') =>
        match _decode obj with
        | Ok v => Some (Return v stream' context')
        | Error e => Some (Raise e stream' context')
        end
    end.

(** Modelled from the spec: [NullTerminated(GreedyBytes)._parse] of the
    runtime with its default options: "read bytes from the stream until
    a zero byte is encountered; return all bytes read, excluding the
    terminating zero"; it "fails with EndOfStream if no zero byte is
    found before the stream ends".  One byte is read per iteration;
    [fuel] bounds the iterations. *)
Fixpoint NullTerminated_GreedyBytes_loop (fuel : nat) (data : list byte)
    (stream : Stream) (context : Container) (path : string)
  : option (outcome (list byte)) :=
  match fuel with
  | O => None
  | S fuel' =>
      match Bytes1 stream context path with
      | Raise e stream' context' => Some (Raise e stream' context')
      | Return b stream' context' =>
          if Py.ord b =? 0
          then Some (Return data stream' context')
          else NullTerminated_GreedyBytes_loop fuel' (data ++ [b])
                                               stream' context' path
      end
  end.

Definition NullTerminated_GreedyBytes_parse (fuel : nat)
  : Stream -> Container -> string -> option (outcome (list byte)) :=
  NullTerminated_GreedyBytes_loop fuel [].

(** The context and the path with which the runtime's [parse_stream]
    calls [_parsereport]: [_parsing], [_building], [_sizing] and
    [_params] (the context itself) are set. *)
Definition parse_stream_context : Container :=
  [ (Some "_parsing", VBool true);
    (Some "_building", VBool false);
    (Some "_sizing", VBool false);
    (Some "_params", VRef the_params) ]%string.

Definition parse_stream (con : Construct) (stream : Stream) : outcome parsed :=
  _parsereport con stream parse_stream_context "(parsing)"%string.

End construct.
Import construct.

(** ** RepeatUntilExcluding *)

Section RepeatUntilExcluding.
Context {E : Type}.

(** What the local name [predicate] of [_parse] is bound to when the loop
    runs:
<<
  predicate = self.predicate
  if not callable(predicate):
      predicate = lambda _1,_2,_3: predicate
>>
    either the callable given to the constructor, or the lambda of the
    third line. *)
Inductive local_predicate : Type :=
| given (f : E -> list E -> Container -> bool)
| the_lambda.

Definition bind_predicate (predicate : predicate_object (E := E))
  : local_predicate :=
  match predicate with
  | function f => given f
  | constant _ => the_lambda
  end.

(** Truth value of the object bound to [predicate]: it is a function
    object in both cases, and function objects are true. *)
Definition truth_of_binding (predicate : local_predicate) : bool :=
  match predicate with
  | given _ => true
  | the_lambda => true
  end.

(** [if predicate(e, obj, context):].  The body of the lambda is the name
    [predicate], a free variable of the lambda that Python resolves in
    the frame of [_parse] when the lambda is called; by then the name is
    bound to the lambda itself, and not to the constant that
    [self.predicate] holds. *)
Definition call_predicate (predicate : local_predicate)
    (e : E) (obj : list E) (context : Container) : bool :=
  match predicate with
  | given f => f e obj context
  | the_lambda => truth_of_binding predicate
  end.

(** [RepeatUntilExcluding._parse]:
<<
  obj = ListContainer()
  for i in itertools.count():
      context._index = i
      e = self.subcon._parsereport(stream, context, path)
      obj.append(e)
      if predicate(e, obj, context):
          del obj[-1]
          return obj
>>
    [fuel] bounds the number of iterations of the [for] loop, which has
    no bound of its own; [None] means that the bound was reached. *)
Fixpoint RepeatUntilExcluding_loop (predicate : local_predicate)
    (subcon : Parser E) (fuel : nat) (i : Z) (obj : list E)
    (stream : Stream) (context : Container) (path : string)
  : option (outcome (list E)) :=
  match fuel with
  | O => None
  | S fuel' =>
      let context := setitem context (Some "_index"%string) (VInt i) in
      match subcon stream context path with
      | Raise e stream' context' => Some (Raise e stream' context')
      | Return e stream' context' =>
          let obj := obj ++ [e] in
          if call_predicate predicate e obj context'
          then Some (Return (removelast obj) stream' context')
          else RepeatUntilExcluding_loop predicate subcon fuel' (i + 1) obj
                                         stream' context' path
      end
  end.

Definition RepeatUntilExcluding_parse (predicate : predicate_object)
    (subcon : Parser E) (fuel : nat)
  : Stream -> Container -> string -> option (outcome (list E)) :=
  RepeatUntilExcluding_loop (bind_predicate predicate) subcon fuel 0 [].

(** [RepeatUntilExcluding._build]: [raise NotImplementedError('no building')] *)
Definition RepeatUntilExcluding_build (predicate : predicate_object (E := E))
    (subcon : Parser E) : Builder (list E) :=
  fun obj stream context path =>
    Raise (NotImplementedError "no building") stream context.

(** [RepeatUntilExcluding._sizeof]:
    [raise SizeofError("cannot calculate size, ...", path=path)] *)
Definition RepeatUntilExcluding_sizeof (predicate : predicate_object (E := E))
    (subcon : Parser E) (context : Container) (path : string) : result Z :=
  Error (SizeofError "cannot calculate size, amount depends on actual data"
                     path).

End RepeatUntilExcluding.

(** ** LEB128 constructs *)

(** [_LEB128_reader]:
    [RepeatUntil(lambda obj, list, ctx: ord(obj) < 0x80, Bytes(1))] *)
Definition _LEB128_reader (fuel : nat)
  : Stream -> Container -> string -> option (outcome (list byte)) :=
  RepeatUntil_parse (fun obj list ctx => Py.ord obj <? 0x80) Bytes1 fuel.

(** [ULEB128]: [_ULEB128Adapter(_LEB128_reader())] *)
Definition ULEB128 (fuel : nat)
  : Stream -> Container -> string -> option (outcome Z) :=
  Adapter_parse (_LEB128_reader fuel) _ULEB128Adapter_decode.

(** [SLEB128]: [_SLEB128Adapter(_LEB128_reader())] *)
Definition SLEB128 (fuel : nat)
  : Stream -> Container -> string -> option (outcome Z) :=
  Adapter_parse (_LEB128_reader fuel) _SLEB128Adapter_decode.

(** ** StreamOffset *)

(** [StreamOffset._parse]: [return stream.tell()] *)
Definition StreamOffset_parse : Parser parsed :=
  fun stream context path => Return (PInt (tell stream)) stream context.

(** [StreamOffset._build]: [context[self.name] = stream.tell()]; the
    method has no [return], so it returns [None].  [self_name] is the
    [name] attribute of the instance. *)
Definition StreamOffset_build (self_name : key) : Builder parsed :=
  fun obj stream context path =>
    Return PNone stream (setitem context self_name (VInt (tell stream))).

(** [StreamOffset._sizeof]: [return 0] *)
Definition StreamOffset_sizeof (context : Container) (path : string)
  : result Z :=
  Ok 0.

(** An instance, as [StreamOffset()] makes it: [__init__] takes no name
    (the docstring's [StreamOffset("item_offset")] is not accepted) and
    calls [Construct.__init__], which sets [name] to [None]. *)
Definition StreamOffset : Construct :=
  mkConstruct None false StreamOffset_parse.

(** [_build] of such an instance: [self.name] is the instance's [name]. *)
Definition StreamOffset_instance_build : Builder parsed :=
  StreamOffset_build (name StreamOffset).

(** ** EmbeddableStruct and Embed *)

(** [obj.update(subobj)]: the items of a mapping are written into [obj];
    of another object [update] takes the elements as key/value pairs.  A
    [bool] and an [int] cannot be iterated, and the elements of a [bytes]
    object are integers, which are no pairs: each of them makes [update]
    raise [TypeError].  ([None] is never handed over: it is false.) *)
Definition dict_update (obj : Container) (subobj : parsed) : result Container :=
  match subobj with
  | PContainer items => Ok (update obj items)
  | PNone | PBool _ | PInt _ | PBytes _ => Error TypeError
  end.

(** The [for] loop of [EmbeddableStruct._parse]:
<<
    for sc in self.subcons:
        try:
            subobj = sc._parsereport(stream, context, path)
            if sc.name:
                obj[sc.name] = subobj
                context[sc.name] = subobj
            elif subobj and isinstance(sc, Embed):
                obj.update(subobj)
        except StopFieldError:
            break
>> *)
Fixpoint EmbeddableStruct_fields (subcons : list Construct) (obj : Container)
    (stream : Stream) (context : Container) (path : string) : fields_end :=
  match subcons with
  | [] => Completed obj stream context
  | sc :: subcons' =>
      match _parsereport sc stream context path with
      | Return subobj stream' context' =>
          if truthy_name (name sc)
          then EmbeddableStruct_fields subcons'
                 (setitem obj (name sc) (to_value subobj)) stream'
                 (setitem context' (name sc) (to_value subobj)) path
          else if truthy subobj && isinstance_Embed sc
          then match dict_update obj subobj with
               | Ok obj' =>
                   EmbeddableStruct_fields subcons' obj' stream' context' path
               | Error e => Failed e stream' context'
               end
          else EmbeddableStruct_fields subcons' obj stream' context' path
      | Raise StopFieldError stream' context' => Stopped obj stream' context'
      | Raise e stream' context' => Failed e stream' context'
      end
  end.

(** [EmbeddableStruct._parse]:
<<
    obj = Container()
    obj._io = stream
    context = Container(_ = context, ..., _parent = obj)
    context._root = context._.get("_root", context)
    for sc in self.subcons: ...
    return obj
>>
    The caller's context is not written to: the fields see the new one. *)
Definition EmbeddableStruct_parse (subcons : list Construct) : Parser parsed :=
  fun stream context path =>
    let obj := setitem [] (Some "_io"%string) (VRef the_stream) in
    match struct_context context true with
    | Error e => Raise e stream context
    | Ok child =>
        match EmbeddableStruct_fields subcons obj stream child path with
        | Completed obj' stream' _ => Return (PContainer obj') stream' context
        | Stopped obj' stream' _ => Return (PContainer obj') stream' context
        | Failed e stream' _ => Raise e stream' context
        end
    end.

Definition EmbeddableStruct (subcons : list Construct) : Construct :=
  mkConstruct None false (EmbeddableStruct_parse subcons).

(** [Embed(subcon)]: a [Subconstruct] that defines nothing of its own, so
    parsing is the subcon's; it has no name, and it is what
    [isinstance(sc, Embed)] recognises. *)
Definition Embed (subcon : Construct) : Construct :=
  mkConstruct None true (_parsereport subcon).

(** ** CStringBytes *)

(** [CStringBytes]: [NullTerminated(GreedyBytes)] *)
Definition CStringBytes (fuel : nat)
  : Stream -> Container -> string -> option (outcome (list byte)) :=
  NullTerminated_GreedyBytes_parse fuel.

(** ** The specification's wording of the repeat combinator *)

Section Invocations.
Context {E : Type}.

(** "Repeatedly invoke an inner parser against the stream, accumulating
    results": [n] invocations in a row, every one of which returns, the
    iteration index being put in the context before each; the elements in
    the order parsed, and the stream and the context after the last. *)
Fixpoint invocations (subcon : Parser E) (n : nat) (i : Z)
    (stream : Stream) (context : Container) (path : string)
  : option (list E * Stream * Container) :=
  match n with
  | O => Some ([], stream, context)
  | S n' =>
      match subcon stream (setitem context (Some "_index"%string) (VInt i))
                   path with
      | Raise _ _ _ => None
      | Return e stream' context' =>
          match invocations subcon n' (i + 1) stream' context' path with
          | None => None
          | Some (es, stream'', context'') => Some (e :: es, stream'', context'')
          end
      end
  end.

(** The predicate "returns true" after the invocation number [n]
    (counted from 0), on "the just-parsed element, the accumulated
    sequence, and the context". *)
Definition satisfied_after (f : E -> list E -> Container -> bool)
    (subcon : Parser E) (n : nat)
    (stream : Stream) (context : Container) (path : string) : Prop :=
  exists seq e stream' context',
    invocations subcon (S n) 0 stream context path
    = Some (seq ++ [e], stream', context')
    /\ f e (seq ++ [e]) context' = true.

(** The repeat ends with the invocation number [n]: the predicate is
    satisfied after it and after none of the earlier ones; "the
    terminating element is removed from the returned sequence". *)
Definition repeat_until_excluding (f : E -> list E -> Container -> bool)
    (subcon : Parser E) (n : nat)
    (stream : Stream) (context : Container) (path : string)
    (returned : list E) (stream' : Stream) (context' : Container) : Prop :=
  (exists e,
      invocations subcon (S n) 0 stream context path
      = Some (returned ++ [e], stream', context')
      /\ f e (returned ++ [e]) context' = true)
  /\ forall k, (k < n)%nat ->
               ~ satisfied_after f subcon k stream context path.

End Invocations.

(** ** The specification's wording of the field-result container *)

(** The writes that the field loop of [EmbeddableStruct] makes to the
    result, in declaration order: one for a named field, the items of its
    result for an embedded sub-schema.  "Embedding a sub-schema's results
    into a parent struct merges the sub-schema's field-result mapping into
    the parent's, by key"; the last write to a key wins. *)
Fixpoint field_writes (subcons : list Construct)
    (stream : Stream) (context : Container) (path : string)
  : list (key * value) :=
  match subcons with
  | [] => []
  | sc :: subcons' =>
      match _parsereport sc stream context path with
      | Raise _ _ _ => []
      | Return subobj stream' context' =>
          if truthy_name (name sc)
          then (name sc, to_value subobj)
                 :: field_writes subcons' stream'
                      (setitem context' (name sc) (to_value subobj)) path
          else if truthy subobj && isinstance_Embed sc
          then match subobj with
               | PContainer items => items ++ field_writes subcons' stream' context' path
               | _ => []
               end
          else field_writes subcons' stream' context' path
      end
  end.

(** The value that a sequence of writes leaves under a key: that of the
    last write to it. *)
Definition last_write (writes : list (key * value)) (k : key) : option value :=
  getitem (rev writes) k.

(** ** Reference points for further properties *)

(** The signed LEB128 encoder of the DWARF standard, the encoding that
    [_SLEB128Adapter] decodes; the repository has no encoder of its own:
<<
  more = 1;
  while (more) {
    byte = low order 7 bits of value;
    value >>= 7;                       (arithmetic shift)
    if ((value == 0 && sign bit of byte is clear) ||
        (value == -1 && sign bit of byte is set))
      more = 0;
    else
      set high order bit of byte;
    emit byte;
  }
>>
    [fuel] bounds the iterations. *)
Fixpoint sleb128_encode_loop (fuel : nat) (value : Z) : list byte :=
  match fuel with
  | O => []
  | S fuel' =>
      let b := Z.land value 0x7F in
      let value' := Z.shiftr value 7 in
      if ((value' =? 0) && (b <? 0x40)) || ((value' =? -1) && (0x40 <=? b))
      then [Py.byte_of_int b]
      else Py.byte_of_int (Z.lor b 0x80) :: sleb128_encode_loop fuel' value'
  end.

Definition sleb128_encode (n : Z) : list byte :=
  sleb128_encode_loop (S (Z.to_nat (Z.log2 (Z.abs n)))) n.

(** The value of [u], read as a two's complement number of [bits] bits. *)
Definition twos_complement (bits : Z) (u : Z) : Z :=
  if u <? 2 ^ (bits - 1) then u else u - 2 ^ bits.

(** A parser that leaves the context object as it found it, whether it
    returns or raises. *)
Definition keeps_context {A : Type} (p : Parser A) : Prop :=
  forall stream context path,
    match p stream context path with
    | Return _ _ context' => context' = context
    | Raise _ _ context' => context' = context
    end.

(** The names under which the field loop of a struct stores results: those
    of the subcons whose [name] is true. *)
Definition field_names (subcons : list Construct) : list key :=
  map name (filter (fun sc => truthy_name (name sc)) subcons).

(** ** Facts about the builtins *)

Lemma ord_range (b : byte) : 0 <= Py.ord b < 256.
Proof.
  unfold Py.ord. pose proof (Byte.to_N_bounded b). lia.
Qed.

Lemma ord_byte_of_int (z : Z) : 0 <= z < 256 -> Py.ord (Py.byte_of_int z) = z.
Proof.
  intros Hz. unfold Py.ord, Py.byte_of_int.
  destruct (Byte.of_N (Z.to_N z)) as [b|] eqn:E.
  - apply Byte.to_of_N in E. rewrite E. lia.
  - apply Byte.of_N_None_iff in E. lia.
Qed.

Lemma last_item_app {A : Type} (l : list A) (a : A) :
  Py.last_item (l ++ [a]) = Some a.
Proof.
  induction l as [|x l IH]; [reflexivity|].
  simpl. destruct (l ++ [a]) eqn:E.
  - destruct l; discriminate.
  - exact IH.
Qed.

(** ** Arithmetic of the accumulation step *)

Lemma low7_range (x : Z) : 0 <= Z.land x 0x7F < 128.
Proof.
  change 0x7F with (Z.ones 7). rewrite Z.land_ones by lia.
  change (2 ^ 7) with 128. apply Z.mod_pos_bound. lia.
Qed.

(** The [+] of the source never carries: it is the [|] of the spec. *)
Lemma shift_add_is_lor (value d : Z) :
  0 <= d < 128 -> Z.shiftl value 7 + d = Z.lor (Z.shiftl value 7) d.
Proof.
  intros Hd.
  assert (H0 : Z.land (Z.shiftl value 7) d = 0).
  { apply Z.bits_inj'. intros n Hn.
    rewrite Z.land_spec, Z.bits_0.
    destruct (Z.ltb_spec n 7).
    - rewrite Z.shiftl_spec_low by lia. reflexivity.
    - assert (Hb : Z.testbit d n = false).
      { destruct (Z.eq_dec d 0) as [->|Hnz]; [apply Z.bits_0|].
        apply Z.bits_above_log2; [lia|].
        assert (Z.log2 d < 7); [|lia].
        apply Z.log2_lt_pow2; [lia|]. change (2 ^ 7) with 128. lia. }
      rewrite Hb. apply andb_false_r. }
  rewrite Z.add_nocarry_lxor by exact H0.
  apply Z.lxor_lor. exact H0.
Qed.

Lemma fold_accumulate (obj : list byte) :
  fold_left (fun value b => Z.shiftl value 7 + Z.land (Py.ord b) 0x7F)
            (rev obj) 0
  = Spec.accumulate obj.
Proof.
  rewrite <- fold_left_rev_right, rev_involutive.
  induction obj as [|b obj IH]; [reflexivity|].
  cbn [fold_right Spec.accumulate] in *. rewrite IH.
  apply shift_add_is_lor, low7_range.
Qed.

Lemma accumulate_cons (b : byte) (run : list byte) :
  Spec.accumulate (b :: run)
  = Z.shiftl (Spec.accumulate run) 7 + Z.land (Py.ord b) 0x7F.
Proof.
  simpl. symmetry. apply shift_add_is_lor, low7_range.
Qed.

Lemma land_0x40_testbit (b : byte) :
  negb (Z.land (Py.ord b) 0x40 =? 0) = Z.testbit (Py.ord b) 6.
Proof. destruct b; reflexivity. Qed.

Lemma div_mod_128 (n : Z) :
  Z.shiftl (Z.shiftr n 7) 7 + Z.land n 0x7F = n.
Proof.
  rewrite Z.shiftl_mul_pow2, Z.shiftr_div_pow2 by lia.
  change 0x7F with (Z.ones 7). rewrite Z.land_ones by lia.
  change (2 ^ 7) with 128. pose proof (Z.div_mod n 128). lia.
Qed.

Lemma set_high_bit (d : Z) :
  0 <= d < 128 -> Z.lor d 0x80 = d + 128.
Proof.
  intros Hd. rewrite Z.lor_comm. change 0x80 with (Z.shiftl 1 7).
  symmetry. rewrite Z.add_comm. apply shift_add_is_lor. exact Hd.
Qed.

Lemma low7_of_small (d : Z) : 0 <= d < 128 -> Z.land d 0x7F = d.
Proof.
  intros Hd. change 0x7F with (Z.ones 7). rewrite Z.land_ones by lia.
  apply Z.mod_small. change (2 ^ 7) with 128. lia.
Qed.

Lemma low7_of_continuation (d : Z) :
  0 <= d < 128 -> Z.land (d + 128) 0x7F = d.
Proof.
  intros Hd. change 0x7F with (Z.ones 7). rewrite Z.land_ones by lia.
  change (2 ^ 7) with 128.
  replace (d + 128) with (d + 1 * 128) by lia.
  rewrite Z.mod_add by lia. apply Z.mod_small. lia.
Qed.

(** ** The reference encoder *)

Lemma shiftr7_bound (fuel : nat) (n : Z) :
  0 <= n < 2 ^ Z.of_nat (S fuel) -> Z.shiftr n 7 <> 0 ->
  0 <= Z.shiftr n 7 < 2 ^ Z.of_nat fuel /\ (0 < fuel)%nat.
Proof.
  intros Hn Hnz. rewrite Z.shiftr_div_pow2 in * by lia.
  change (2 ^ 7) with 128 in *.
  rewrite Nat2Z.inj_succ, Z.pow_succ_r in Hn by lia.
  assert (Hp : 0 < 2 ^ Z.of_nat fuel) by (apply Z.pow_pos_nonneg; lia).
  split.
  - split; [apply Z.div_pos; lia|].
    apply Z.div_lt_upper_bound; lia.
  - destruct fuel; [|lia]. exfalso. apply Hnz.
    apply Z.div_small. change (2 ^ Z.of_nat 0) with 1 in Hn. lia.
Qed.

Lemma accumulate_encode_loop (fuel : nat) :
  forall n, 0 <= n < 2 ^ Z.of_nat fuel -> (0 < fuel)%nat ->
            Spec.accumulate (Spec.encode_loop fuel n) = n.
Proof.
  induction fuel as [|fuel IH]; intros n Hn Hfuel; [lia|].
  cbn [Spec.encode_loop]. cbv zeta.
  pose proof (low7_range n) as Hd.
  destruct (Z.eqb_spec (Z.shiftr n 7) 0) as [Hz|Hnz].
  - rewrite accumulate_cons. cbn [Spec.accumulate fold_right].
    rewrite ord_byte_of_int by lia. rewrite low7_of_small by exact Hd.
    pose proof (div_mod_128 n) as H. rewrite Hz in H. exact H.
  - destruct (shiftr7_bound fuel n Hn Hnz) as [Hn' Hfuel'].
    rewrite accumulate_cons, IH by assumption.
    rewrite set_high_bit by exact Hd. rewrite ord_byte_of_int by lia.
    rewrite low7_of_continuation by exact Hd. apply div_mod_128.
Qed.

Lemma log2_fuel (n : Z) :
  0 <= n -> 0 <= n < 2 ^ Z.of_nat (S (Z.to_nat (Z.log2 n))).
Proof.
  intros Hn. split; [exact Hn|].
  rewrite Nat2Z.inj_succ, Z2Nat.id by apply Z.log2_nonneg.
  destruct (Z.eq_dec n 0) as [->|Hnz]; [reflexivity|].
  apply Z.log2_spec. lia.
Qed.

Lemma decode_encode_bytes (n : Z) :
  0 <= n -> _ULEB128Adapter_decode (Spec.encode_bytes n) = Ok n.
Proof.
  intros Hn. unfold _ULEB128Adapter_decode, Spec.encode_bytes.
  rewrite fold_accumulate. f_equal.
  apply accumulate_encode_loop; [apply log2_fuel; exact Hn | lia].
Qed.

Lemma encode_loop_nonempty (fuel : nat) (n : Z) :
  (0 < fuel)%nat -> Spec.encode_loop fuel n <> [].
Proof.
  destruct fuel; [lia|]. intros _. cbn [Spec.encode_loop]. cbv zeta.
  destruct (Z.shiftr n 7 =? 0); discriminate.
Qed.

Lemma byte_run_cons (b : byte) (run : list byte) :
  run <> [] ->
  Spec.byte_run (b :: run) = (0x80 <=? Py.ord b) && Spec.byte_run run.
Proof. destruct run; [congruence | reflexivity]. Qed.

Lemma byte_run_encode_loop (fuel : nat) :
  forall n, 0 <= n < 2 ^ Z.of_nat fuel -> (0 < fuel)%nat ->
            Spec.byte_run (Spec.encode_loop fuel n) = true.
Proof.
  induction fuel as [|fuel IH]; intros n Hn Hfuel; [lia|].
  cbn [Spec.encode_loop]. cbv zeta.
  pose proof (low7_range n) as Hd.
  destruct (Z.eqb_spec (Z.shiftr n 7) 0) as [Hz|Hnz].
  - cbn [Spec.byte_run]. rewrite ord_byte_of_int by lia. apply Z.ltb_lt. lia.
  - destruct (shiftr7_bound fuel n Hn Hnz) as [Hn' Hfuel'].
    rewrite byte_run_cons by (apply encode_loop_nonempty; exact Hfuel').
    rewrite IH by assumption.
    rewrite set_high_bit by exact Hd. rewrite ord_byte_of_int by lia.
    rewrite andb_true_r. apply Z.leb_le. lia.
Qed.

Lemma byte_run_encode_bytes (n : Z) :
  0 <= n -> Spec.byte_run (Spec.encode_bytes n) = true.
Proof.
  intros Hn. apply byte_run_encode_loop; [apply log2_fuel; exact Hn | lia].
Qed.

(** ** Containers *)

Lemma key_eqb_refl (k : key) : key_eqb k k = true.
Proof. destruct k as [s|]; [apply String.eqb_refl | reflexivity]. Qed.

Lemma key_eqb_eq (k1 k2 : key) : key_eqb k1 k2 = true <-> k1 = k2.
Proof.
  destruct k1 as [s1|], k2 as [s2|]; cbn; try (split; congruence).
  rewrite String.eqb_eq. split; congruence.
Qed.

Lemma setitem_setitem (c : Container) (k : key) (v v' : value) :
  setitem (setitem c k v) k v' = setitem c k v'.
Proof.
  induction c as [|[k0 v0] c IH]; cbn [setitem].
  - rewrite key_eqb_refl. reflexivity.
  - destruct (key_eqb k0 k) eqn:E; cbn [setitem]; rewrite E.
    + reflexivity.
    + rewrite IH. reflexivity.
Qed.

Lemma getitem_setitem (c : Container) (k k' : key) (v : value) :
  getitem (setitem c k v) k' = if key_eqb k k' then Some v else getitem c k'.
Proof.
  induction c as [|[k0 v0] c IH]; cbn [setitem getitem].
  - reflexivity.
  - destruct (key_eqb k0 k) eqn:E; cbn [getitem].
    + apply key_eqb_eq in E. subst k0.
      destruct (key_eqb k k'); reflexivity.
    + rewrite IH. destruct (key_eqb k0 k') eqn:E'; [|reflexivity].
      apply key_eqb_eq in E'. subst k0.
      destruct (key_eqb k k') eqn:E2; [|reflexivity].
      apply key_eqb_eq in E2. subst k'. rewrite key_eqb_refl in E.
      discriminate.
Qed.

(** ** Reading the stream one byte at a time *)

Lemma skipn_next {A : Type} (l : list A) (p : nat) (a : A) (tl : list A) :
  skipn p l = a :: tl -> skipn (p + 1) l = tl.
Proof.
  intros H. rewrite Nat.add_comm, <- skipn_skipn, H. reflexivity.
Qed.

Lemma Bytes1_next (d : list byte) (p : nat) (b : byte) (tl : list byte)
    (context : Container) (path : string) :
  skipn p d = b :: tl ->
  Bytes1 (mkStream d p) context path = Return b (mkStream d (p + 1)) context.
Proof.
  intros H. unfold Bytes1, stream_read, read. cbn [data pos].
  rewrite H. reflexivity.
Qed.

Lemma Bytes1_end (d : list byte) (p : nat) (context : Container)
    (path : string) :
  skipn p d = [] ->
  Bytes1 (mkStream d p) context path
  = Raise (EndOfStream path) (mkStream d p) context.
Proof.
  intros H. unfold Bytes1, stream_read, read. cbn [data pos].
  rewrite H. cbn. rewrite Nat.add_0_r. reflexivity.
Qed.

(** ** The LEB128 reader returns the byte run at the cursor *)

Lemma LEB128_reader_loop (run : list byte) :
  Spec.byte_run run = true ->
  forall fuel i obj d p context path rest,
    skipn p d = run ++ rest ->
    (List.length run <= fuel)%nat ->
    RepeatUntil_loop (fun obj _ _ => Py.ord obj <? 0x80) Bytes1
                     fuel i obj (mkStream d p) context path
    = Some (Return (obj ++ run) (mkStream d (p + List.length run))
              (setitem context (Some "_index"%string)
                       (VInt (i + Z.of_nat (List.length run) - 1)))).
Proof.
  induction run as [|b run IH]; intros Hrun fuel i obj d p context path rest
                                       Hd Hfuel; [discriminate|].
  destruct fuel as [|fuel]; [cbn in Hfuel; lia|].
  cbn [RepeatUntil_loop]. cbv zeta.
  rewrite (Bytes1_next d p b (run ++ rest)) by exact Hd.
  destruct run as [|b' run].
  - cbn [Spec.byte_run] in Hrun. rewrite Hrun.
    cbn [List.length]. do 3 f_equal. f_equal. lia.
  - rewrite byte_run_cons in Hrun by discriminate.
    apply andb_prop in Hrun. destruct Hrun as [Hb Hrun].
    apply Z.leb_le in Hb.
    destruct (Z.ltb_spec (Py.ord b) 0x80) as [Hlt|_]; [lia|].
    rewrite (IH Hrun fuel (i + 1) (obj ++ [b]) d (p + 1)%nat _ path rest).
    + rewrite setitem_setitem, <- app_assoc. cbn [app].
      f_equal. f_equal.
      * f_equal. cbn [List.length]. lia.
      * do 2 f_equal. cbn [List.length]. lia.
    + apply (skipn_next _ _ _ _ Hd).
    + cbn [List.length] in *. lia.
Qed.

Lemma LEB128_reader_run (run rest : list byte) (fuel : nat)
    (context : Container) (path : string) :
  Spec.byte_run run = true ->
  (List.length run <= fuel)%nat ->
  _LEB128_reader fuel (mkStream (run ++ rest) 0) context path
  = Some (Return run (mkStream (run ++ rest) (List.length run))
            (setitem context (Some "_index"%string)
                     (VInt (Z.of_nat (List.length run) - 1)))).
Proof.
  intros Hrun Hfuel. unfold _LEB128_reader, RepeatUntil_parse.
  rewrite (LEB128_reader_loop run Hrun fuel 0 [] (run ++ rest) 0 context path rest)
    by (assumption || reflexivity).
  reflexivity.
Qed.

(** What the reader returns is a byte run: continuation bytes followed by
    one terminal byte. *)
Lemma byte_run_snoc (acc : list byte) (b : byte) :
  forallb (fun x => 0x80 <=? Py.ord x) acc = true ->
  Py.ord b < 0x80 ->
  Spec.byte_run (acc ++ [b]) = true.
Proof.
  intros Hacc Hb. induction acc as [|a acc IH].
  - cbn. apply Z.ltb_lt. exact Hb.
  - cbn [forallb] in Hacc. apply andb_prop in Hacc. destruct Hacc as [Ha Hacc].
    cbn [app]. rewrite byte_run_cons by (destruct acc; discriminate).
    rewrite Ha, (IH Hacc). reflexivity.
Qed.

Lemma LEB128_reader_loop_returns_run (fuel : nat) :
  forall i acc stream context path obj stream' context',
    forallb (fun x => 0x80 <=? Py.ord x) acc = true ->
    RepeatUntil_loop (fun obj _ _ => Py.ord obj <? 0x80) Bytes1
                     fuel i acc stream context path
    = Some (Return obj stream' context') ->
    Spec.byte_run obj = true.
Proof.
  induction fuel as [|fuel IH];
    intros i acc stream context path obj stream' context' Hacc H;
    [discriminate|].
  cbn [RepeatUntil_loop] in H. cbv zeta in H.
  destruct (Bytes1 stream _ path) as [b s1 c1|]; [|discriminate].
  destruct (Z.ltb_spec (Py.ord b) 0x80) as [Hb|Hb].
  - injection H as <- _ _. apply byte_run_snoc; assumption.
  - apply IH in H; [exact H|].
    rewrite forallb_app, Hacc. cbn [forallb].
    rewrite andb_true_r. apply Z.leb_le. exact Hb.
Qed.

(** ** LEB128 decoding *)

Lemma SLEB128_decode_run (run : list byte) (terminal : byte) :
  _SLEB128Adapter_decode (run ++ [terminal])
  = Ok (Spec.sign_extend (run ++ [terminal]) terminal
          (Spec.accumulate (run ++ [terminal]))).
Proof.
  unfold _SLEB128Adapter_decode, Spec.sign_extend. cbv zeta.
  rewrite last_item_app, fold_accumulate, land_0x40_testbit.
  destruct (Z.testbit (Py.ord terminal) 6); reflexivity.
Qed.

Lemma ULEB128_parse_encoded (n : Z) (rest : list byte) (extra : nat)
    (context : Container) (path : string) :
  0 <= n ->
  let run := Spec.encode_bytes n in
  ULEB128 (List.length run + extra) (mkStream (run ++ rest) 0) context path
  = Some (Return n (mkStream (run ++ rest) (List.length run))
            (setitem context (Some "_index"%string)
                     (VInt (Z.of_nat (List.length run) - 1)))).
Proof.
  intros Hn run. unfold ULEB128, Adapter_parse.
  rewrite LEB128_reader_run
    by (try apply byte_run_encode_bytes; try assumption; lia).
  unfold run. rewrite decode_encode_bytes by exact Hn. reflexivity.
Qed.

Lemma SLEB128_parse_run (init : list byte) (terminal : byte)
    (rest : list byte) (extra : nat) (context : Container) (path : string) :
  let run := init ++ [terminal] in
  Spec.byte_run run = true ->
  SLEB128 (List.length run + extra) (mkStream (run ++ rest) 0) context path
  = Some (Return (Spec.sign_extend run terminal (Spec.accumulate run))
            (mkStream (run ++ rest) (List.length run))
            (setitem context (Some "_index"%string)
                     (VInt (Z.of_nat (List.length run) - 1)))).
Proof.
  intros run Hrun. unfold SLEB128, Adapter_parse.
  rewrite LEB128_reader_run by (assumption || lia).
  unfold run. rewrite SLEB128_decode_run. reflexivity.
Qed.

(** C1: the signed LEB128 decoder accumulates the low 7 bits of each byte
    from the last byte to the first ([value << 7 | byte & 0x7F]) and then,
    when bit 6 of the last byte in stream order is set, ORs in
    [-(1 << (7 * run_length))].  In particular [[0x7F]] decodes to [-1],
    [[0x3F]] to [63], [[0xFF, 0x00]] to [127]; a single-byte run with the
    sign bit set decodes to [byte - 128], and one below [0x40] decodes to
    itself.  The runs that [SLEB128] hands to the decoder are byte runs
    (a terminal byte last), and on a stream that starts with a byte run
    [SLEB128] returns its sign-extended value. *)
Theorem SLEB128_decode_correct :
  (forall (run : list byte) (terminal : byte),
      _SLEB128Adapter_decode (run ++ [terminal])
      = Ok (Spec.sign_extend (run ++ [terminal]) terminal
              (Spec.accumulate (run ++ [terminal]))))
  /\ _SLEB128Adapter_decode [x7f] = Ok (-1)
  /\ _SLEB128Adapter_decode [x3f] = Ok 63
  /\ _SLEB128Adapter_decode [xff; x00] = Ok 127
  /\ (forall b : byte,
         Spec.byte_run [b] = true ->
         Z.testbit (Py.ord b) 6 = true ->
         _SLEB128Adapter_decode [b] = Ok (Py.ord b - 128))
  /\ (forall b : byte,
         Py.ord b < 0x40 ->
         _SLEB128Adapter_decode [b] = Ok (Py.ord b))
  /\ (forall b : byte,
         Z.testbit (Py.ord b) 6 = true ->
         _SLEB128Adapter_decode [b] = Ok (Z.land (Py.ord b) 0x7F - 128))
  /\ (forall (fuel : nat) (stream : Stream) (context : Container)
             (path : string) (obj : list byte) stream' context',
         _LEB128_reader fuel stream context path
         = Some (Return obj stream' context') ->
         Spec.byte_run obj = true)
  /\ (forall (init : list byte) (terminal : byte) (rest : list byte)
             (extra : nat) (context : Container) (path : string),
         Spec.byte_run (init ++ [terminal]) = true ->
         SLEB128 (List.length (init ++ [terminal]) + extra)
                 (mkStream ((init ++ [terminal]) ++ rest) 0) context path
         = Some (Return
                   (Spec.sign_extend (init ++ [terminal]) terminal
                      (Spec.accumulate (init ++ [terminal])))
                   (mkStream ((init ++ [terminal]) ++ rest)
                             (List.length (init ++ [terminal])))
                   (setitem context (Some "_index"%string)
                      (VInt (Z.of_nat (List.length (init ++ [terminal])) - 1))))).
Proof.
  split; [exact SLEB128_decode_run|].
  split; [reflexivity|]. split; [reflexivity|]. split; [reflexivity|].
  split; [|split; [|split; [|split]]].
  - intros b Hrun Hsign.
    destruct b; try discriminate Hrun; try discriminate Hsign; reflexivity.
  - intros b Hb.
    destruct b; try reflexivity; vm_compute in Hb; discriminate Hb.
  - intros b Hsign.
    destruct b; try discriminate Hsign; reflexivity.
  - intros fuel stream context path obj stream' context' H.
    apply (LEB128_reader_loop_returns_run fuel 0 [] stream context path
             obj stream' context'); [reflexivity | exact H].
  - intros init terminal rest extra context path Hrun.
    apply (SLEB128_parse_run init terminal rest extra context path Hrun).
Qed.

Lemma SLEB128_decode_correct_witness :
  Spec.byte_run [x41] = true
  /\ Z.testbit (Py.ord x41) 6 = true
  /\ Py.ord x05 < 0x40
  /\ _SLEB128Adapter_decode [x41] = Ok (Py.ord x41 - 128)
  /\ _SLEB128Adapter_decode [x05] = Ok (Py.ord x05)
  /\ SLEB128 2 (mkStream [x80; x7f; x01] 0) [] "(parsing)"
     = Some (Return (-128) (mkStream [x80; x7f; x01] 2)
               [(Some "_index"%string, VInt 1)]).
Proof.
  split; [reflexivity|]. split; [reflexivity|]. split; [reflexivity|].
  split; [|split].
  - apply (proj1 (proj2 (proj2 (proj2 (proj2 SLEB128_decode_correct)))));
      reflexivity.
  - apply (proj1 (proj2 (proj2 (proj2 (proj2 (proj2 SLEB128_decode_correct))))));
      reflexivity.
  - exact (proj2 (proj2 (proj2 (proj2 (proj2 (proj2 (proj2 (proj2
             SLEB128_decode_correct)))))))
             [x80] x7f [x01] 0%nat [] "(parsing)"%string eq_refl).
Defined.

(** C2: for every [n] in [{0, 1, 127, 128, 300, 2^32-1, 2^63-1}], the
    unsigned decoder applied to the byte run that the reference LEB128
    encoder produces for [n] gives [n] back, also when the run is read
    from a stream by [ULEB128]; the decoder accumulates
    [value = (value << 7) | (byte & 0x7F)] from the last byte of the run
    to the first. *)
Theorem ULEB128_decode_encode :
  Forall (fun n =>
            Spec.byte_run (Spec.encode_bytes n) = true
            /\ _ULEB128Adapter_decode (Spec.encode_bytes n) = Ok n
            /\ forall rest extra context path,
                ULEB128 (List.length (Spec.encode_bytes n) + extra)
                        (mkStream (Spec.encode_bytes n ++ rest) 0) context path
                = Some (Return n
                          (mkStream (Spec.encode_bytes n ++ rest)
                                    (List.length (Spec.encode_bytes n)))
                          (setitem context (Some "_index"%string)
                             (VInt (Z.of_nat (List.length (Spec.encode_bytes n))
                                    - 1)))))
         [0; 1; 127; 128; 300; 2 ^ 32 - 1; 2 ^ 63 - 1]
  /\ (forall obj : list byte,
         _ULEB128Adapter_decode obj = Ok (Spec.accumulate obj)).
Proof.
  split.
  - repeat constructor;
      solve [ apply byte_run_encode_bytes; lia
            | apply decode_encode_bytes; lia
            | intros; apply ULEB128_parse_encoded; lia ].
  - intros obj. unfold _ULEB128Adapter_decode.
    rewrite fold_accumulate. reflexivity.
Qed.

(** ** RepeatUntilExcluding and the invocations of its subcon *)

Section RepeatUntilExcludingFacts.
Context {E : Type}.
Variable f : E -> list E -> Container -> bool.
Variable subcon : Parser E.
Variable path : string.

Lemma invocations_S (n : nat) i stream context :
  invocations subcon (S n) i stream context path
  = match subcon stream (setitem context (Some "_index"%string) (VInt i))
                 path with
    | Raise _ _ _ => None
    | Return e stream' context' =>
        match invocations subcon n (i + 1) stream' context' path with
        | None => None
        | Some (es, stream'', context'') => Some (e :: es, stream'', context'')
        end
    end.
Proof. reflexivity. Qed.

Lemma invocations_length (n : nat) :
  forall i stream context es stream' context',
    invocations subcon n i stream context path = Some (es, stream', context') ->
    List.length es = n.
Proof.
  induction n as [|n IH]; intros i stream context es stream' context' H;
    cbn [invocations] in H.
  - injection H as <- _ _. reflexivity.
  - destruct (subcon stream _ path) as [e s1 c1|]; [|discriminate].
    destruct (invocations subcon n (i + 1) s1 c1 path) as [[[es1 s2] c2]|] eqn:E1;
      [|discriminate].
    injection H as <- _ _. cbn [List.length]. f_equal. eapply IH, E1.
Qed.

Lemma cons_eq_snoc (e0 x : E) (es seq : list E) :
  es <> [] -> e0 :: es = seq ++ [x] ->
  exists seq', seq = e0 :: seq' /\ es = seq' ++ [x].
Proof.
  intros Hne H. destruct seq as [|a seq'].
  - cbn in H. injection H as _ H. congruence.
  - cbn in H. injection H as <- H. exists seq'. split; [reflexivity | exact H].
Qed.

Lemma invocations_nonempty (n : nat) i stream context es stream' context' :
  invocations subcon (S n) i stream context path = Some (es, stream', context') ->
  es <> [].
Proof.
  intros H Hnil. apply invocations_length in H. subst es. discriminate.
Qed.

(** The loop, started at iteration [i] with [obj] accumulated so far. *)
Lemma RepeatUntilExcluding_loop_complete (n : nat) :
  forall fuel i obj stream context seq e stream' context',
    invocations subcon (S n) i stream context path
    = Some (seq ++ [e], stream', context') ->
    f e (obj ++ seq ++ [e]) context' = true ->
    (forall k seqk x sk ck,
        (k < n)%nat ->
        invocations subcon (S k) i stream context path
        = Some (seqk ++ [x], sk, ck) ->
        f x (obj ++ seqk ++ [x]) ck = false) ->
    (n < fuel)%nat ->
    RepeatUntilExcluding_loop (given f) subcon fuel i obj stream context path
    = Some (Return (obj ++ seq) stream' context').
Proof.
  induction n as [|n IH];
    intros fuel i obj stream context seq e stream' context' Hinv Hlast Hbefore Hfuel;
    (destruct fuel as [|fuel]; [lia|]);
    cbn [RepeatUntilExcluding_loop]; cbv zeta;
    rewrite invocations_S in Hinv;
    destruct (subcon stream _ path) as [e0 s1 c1|] eqn:Hsub; try discriminate.
  - cbn [invocations] in Hinv. injection Hinv as Hseq <- <-.
    change [e0] with ([] ++ [e0]) in Hseq.
    apply app_inj_tail in Hseq. destruct Hseq as [<- <-].
    cbn [call_predicate]. cbn [app] in Hlast. rewrite Hlast.
    rewrite removelast_last, app_nil_r. reflexivity.
  - destruct (invocations subcon (S n) (i + 1) s1 c1 path)
      as [[[es1 s2] c2]|] eqn:Hrest; [|discriminate].
    injection Hinv as Hseq <- <-.
    destruct (cons_eq_snoc e0 e es1 seq) as (seq' & -> & ->);
      [eapply invocations_nonempty, Hrest | exact Hseq |].
    assert (Hfirst : f e0 (obj ++ [e0]) c1 = false).
    { apply (Hbefore 0%nat [] e0 s1 c1); [lia|].
      rewrite invocations_S, Hsub. reflexivity. }
    cbn [call_predicate]. rewrite Hfirst.
    rewrite (IH fuel (i + 1) (obj ++ [e0]) s1 c1 seq' e s2 c2).
    + rewrite <- app_assoc. reflexivity.
    + exact Hrest.
    + rewrite <- app_assoc. exact Hlast.
    + intros k seqk x sk ck Hk Hinvk. rewrite <- app_assoc.
      apply (Hbefore (S k) (e0 :: seqk) x sk ck); [lia|].
      rewrite invocations_S, Hsub, Hinvk. reflexivity.
    + lia.
Qed.

Lemma RepeatUntilExcluding_loop_sound (fuel : nat) :
  forall i obj stream context returned stream' context',
    RepeatUntilExcluding_loop (given f) subcon fuel i obj stream context path
    = Some (Return returned stream' context') ->
    exists seq e,
      returned = obj ++ seq
      /\ (List.length seq < fuel)%nat
      /\ invocations subcon (S (List.length seq)) i stream context path
         = Some (seq ++ [e], stream', context')
      /\ f e (obj ++ seq ++ [e]) context' = true
      /\ forall k seqk x sk ck,
          (k < List.length seq)%nat ->
          invocations subcon (S k) i stream context path
          = Some (seqk ++ [x], sk, ck) ->
          f x (obj ++ seqk ++ [x]) ck = false.
Proof.
  induction fuel as [|fuel IH];
    intros i obj stream context returned stream' context' H; [discriminate|].
  cbn [RepeatUntilExcluding_loop] in H. cbv zeta in H.
  destruct (subcon stream _ path) as [e0 s1 c1|] eqn:Hsub; [|discriminate].
  cbn [call_predicate] in H.
  destruct (f e0 (obj ++ [e0]) c1) eqn:Hf.
  - injection H as <- <- <-. exists [], e0.
    rewrite removelast_last, app_nil_r. cbn [List.length app].
    repeat split; try lia.
    + rewrite invocations_S, Hsub. reflexivity.
    + exact Hf.
  - apply IH in H.
    destruct H as (seq & e & -> & Hlen & Hinv & Hlast & Hbefore).
    exists (e0 :: seq), e. cbn [List.length].
    rewrite <- app_assoc in *. cbn [app] in *.
    repeat split; try lia.
    + rewrite invocations_S, Hsub, Hinv. reflexivity.
    + exact Hlast.
    + intros k seqk x sk ck Hk Hinvk.
      rewrite invocations_S, Hsub in Hinvk.
      destruct k as [|k].
      * cbn [invocations] in Hinvk. injection Hinvk as Hseq <- <-.
        change [e0] with ([] ++ [e0]) in Hseq.
        apply app_inj_tail in Hseq. destruct Hseq as [<- <-]. exact Hf.
      * destruct (invocations subcon (S k) (i + 1) s1 c1 path)
          as [[[es1 s2] c2]|] eqn:Hrest; [|discriminate].
        injection Hinvk as Hseq <- <-.
        destruct (cons_eq_snoc e0 x es1 seqk) as (seq' & -> & ->);
          [eapply invocations_nonempty, Hrest | exact Hseq |].
        specialize (Hbefore k seq' x s2 c2).
        rewrite <- app_assoc in Hbefore. cbn [app] in *.
        apply Hbefore; [lia | exact Hrest].
Qed.

Lemma RepeatUntilExcluding_complete (n fuel : nat) stream context
    returned stream' context' :
  repeat_until_excluding f subcon n stream context path
                         returned stream' context' ->
  (n < fuel)%nat ->
  RepeatUntilExcluding_parse (function f) subcon fuel stream context path
  = Some (Return returned stream' context').
Proof.
  intros [(e & Hinv & Hlast) Hbefore] Hfuel.
  unfold RepeatUntilExcluding_parse. cbn [bind_predicate].
  rewrite (RepeatUntilExcluding_loop_complete n fuel 0 [] stream context
             returned e stream' context'); try assumption.
  - reflexivity.
  - intros k seqk x sk ck Hk Hinvk. cbn [app].
    destruct (f x (seqk ++ [x]) ck) eqn:Hf; [|reflexivity].
    exfalso. apply (Hbefore k Hk). exists seqk, x, sk, ck. split; assumption.
Qed.

Lemma RepeatUntilExcluding_sound (fuel : nat) stream context
    returned stream' context' :
  RepeatUntilExcluding_parse (function f) subcon fuel stream context path
  = Some (Return returned stream' context') ->
  (List.length returned < fuel)%nat
  /\ repeat_until_excluding f subcon (List.length returned) stream context path
                            returned stream' context'.
Proof.
  intros H. unfold RepeatUntilExcluding_parse in H. cbn [bind_predicate] in H.
  apply RepeatUntilExcluding_loop_sound in H.
  destruct H as (seq & e & -> & Hlen & Hinv & Hlast & Hbefore).
  cbn [app] in *. split; [exact Hlen|]. split.
  - exists e. split; assumption.
  - intros k Hk (seqk & x & sk & ck & Hinvk & Hx).
    rewrite (Hbefore k seqk x sk ck Hk Hinvk) in Hx. discriminate.
Qed.

End RepeatUntilExcludingFacts.

(** With a one-byte subcon and a predicate on the byte alone, the result is
    the bytes before the first one that satisfies the predicate. *)
Lemma RepeatUntilExcluding_loop_bytes (p : byte -> bool) (pre : list byte) :
  forall fuel i obj d pos0 context path t post,
    skipn pos0 d = pre ++ t :: post ->
    forallb (fun b => negb (p b)) pre = true ->
    p t = true ->
    (List.length pre < fuel)%nat ->
    RepeatUntilExcluding_loop (given (fun e _ _ => p e)) Bytes1
                              fuel i obj (mkStream d pos0) context path
    = Some (Return (obj ++ pre) (mkStream d (pos0 + List.length pre + 1))
              (setitem context (Some "_index"%string)
                       (VInt (i + Z.of_nat (List.length pre))))).
Proof.
  induction pre as [|b pre IH];
    intros fuel i obj d pos0 context path t post Hd Hpre Ht Hfuel;
    (destruct fuel as [|fuel]; [cbn in Hfuel; lia|]);
    cbn [RepeatUntilExcluding_loop]; cbv zeta;
    rewrite (Bytes1_next d pos0 _ _ _ path Hd); cbn [call_predicate].
  - rewrite Ht, removelast_last, app_nil_r. cbn [List.length].
    rewrite Nat.add_0_r, Z.add_0_r. reflexivity.
  - cbn [forallb] in Hpre. apply andb_prop in Hpre. destruct Hpre as [Hb Hpre].
    apply negb_true_iff in Hb. rewrite Hb.
    rewrite (IH fuel (i + 1) (obj ++ [b]) d (pos0 + 1)%nat _ path t post).
    + rewrite setitem_setitem, <- app_assoc. cbn [app List.length].
      f_equal. f_equal.
      * f_equal. lia.
      * do 2 f_equal. lia.
    + apply (skipn_next _ _ _ _ Hd).
    + exact Hpre.
    + exact Ht.
    + cbn [List.length] in Hfuel. lia.
Qed.

Lemma RepeatUntilExcluding_parse_bytes (p : byte -> bool)
    (pre : list byte) (t : byte) (post : list byte) (fuel : nat)
    (d : list byte) (pos0 : nat) (context : Container) (path : string) :
  skipn pos0 d = pre ++ t :: post ->
  forallb (fun b => negb (p b)) pre = true ->
  p t = true ->
  (List.length pre < fuel)%nat ->
  RepeatUntilExcluding_parse (function (fun e _ _ => p e)) Bytes1
                             fuel (mkStream d pos0) context path
  = Some (Return pre (mkStream d (pos0 + List.length pre + 1))
            (setitem context (Some "_index"%string)
                     (VInt (Z.of_nat (List.length pre))))).
Proof.
  intros Hd Hpre Ht Hfuel. unfold RepeatUntilExcluding_parse.
  cbn [bind_predicate].
  rewrite (RepeatUntilExcluding_loop_bytes p pre fuel 0 [] d pos0 context path
             t post Hd Hpre Ht Hfuel).
  reflexivity.
Qed.

(** C3: parsing with [RepeatUntilExcluding] invokes the subcon again and
    again, accumulating the results, until the predicate, applied to the
    element just parsed, the accumulated sequence and the context, returns
    true; the terminating element is removed from the sequence returned.
    With a one-byte subcon and the predicate [byte == 0], the input
    [[1,2,3,0,9,9]] gives [[1,2,3]] and leaves the stream right after the
    [0] consumed. *)
Theorem RepeatUntilExcluding_parse_correct :
  (forall (E : Type) (f : E -> list E -> Container -> bool)
          (subcon : Parser E) (path : string) (n fuel : nat)
          (stream : Stream) (context : Container)
          (returned : list E) (stream' : Stream) (context' : Container),
      repeat_until_excluding f subcon n stream context path
                             returned stream' context' ->
      (n < fuel)%nat ->
      RepeatUntilExcluding_parse (function f) subcon fuel stream context path
      = Some (Return returned stream' context'))
  /\ (forall (E : Type) (f : E -> list E -> Container -> bool)
             (subcon : Parser E) (path : string) (fuel : nat)
             (stream : Stream) (context : Container)
             (returned : list E) (stream' : Stream) (context' : Container),
         RepeatUntilExcluding_parse (function f) subcon fuel stream context path
         = Some (Return returned stream' context') ->
         (List.length returned < fuel)%nat
         /\ repeat_until_excluding f subcon (List.length returned)
                                   stream context path
                                   returned stream' context')
  /\ (forall (p : byte -> bool) (pre : list byte) (t : byte)
             (post : list byte) (fuel : nat) (d : list byte) (pos0 : nat)
             (context : Container) (path : string),
         skipn pos0 d = pre ++ t :: post ->
         forallb (fun b => negb (p b)) pre = true ->
         p t = true ->
         (List.length pre < fuel)%nat ->
         RepeatUntilExcluding_parse (function (fun e _ _ => p e)) Bytes1
                                    fuel (mkStream d pos0) context path
         = Some (Return pre (mkStream d (pos0 + List.length pre + 1))
                   (setitem context (Some "_index"%string)
                            (VInt (Z.of_nat (List.length pre))))))
  /\ (forall (extra : nat) (context : Container) (path : string),
         RepeatUntilExcluding_parse
           (function (fun e _ _ => Py.ord e =? 0)) Bytes1 (4 + extra)
           (mkStream [x01; x02; x03; x00; x09; x09] 0) context path
         = Some (Return [x01; x02; x03]
                   (mkStream [x01; x02; x03; x00; x09; x09] 4)
                   (setitem context (Some "_index"%string) (VInt 3)))).
Proof.
  split; [|split; [|split]].
  - intros E f subcon path n fuel stream context returned stream' context'.
    apply RepeatUntilExcluding_complete.
  - intros E f subcon path fuel stream context returned stream' context'.
    apply RepeatUntilExcluding_sound.
  - exact RepeatUntilExcluding_parse_bytes.
  - intros extra context path.
    apply (RepeatUntilExcluding_parse_bytes
             (fun e => Py.ord e =? 0) [x01; x02; x03] x00 [x09; x09]);
      try reflexivity.
    cbn [List.length]. lia.
Qed.

Lemma RepeatUntilExcluding_parse_correct_witness :
  let f := fun (e : byte) (_ : list byte) (_ : Container) => Py.ord e =? 0 in
  let stream := mkStream [x05; x00; x07] 0 in
  RepeatUntilExcluding_parse (function f) Bytes1 2 stream [] "top"
  = Some (Return [x05] (mkStream [x05; x00; x07] 2)
            [(Some "_index"%string, VInt 1)])
  /\ ((List.length [x05] < 2)%nat
      /\ repeat_until_excluding f Bytes1 (List.length [x05]) stream [] "top"
           [x05] (mkStream [x05; x00; x07] 2)
           [(Some "_index"%string, VInt 1)])
  /\ RepeatUntilExcluding_parse (function f) Bytes1 5
       (mkStream [x01; x02; x00] 0) [] "top"
     = Some (Return [x01; x02] (mkStream [x01; x02; x00] 3)
               [(Some "_index"%string, VInt 2)]).
Proof.
  intros f stream.
  assert (Hspec : repeat_until_excluding f Bytes1 1 stream [] "top" [x05]
                    (mkStream [x05; x00; x07] 2)
                    [(Some "_index"%string, VInt 1)]).
  { split.
    - exists x00. split; reflexivity.
    - intros k Hk (seq & e & s' & c' & Hinv & He).
      assert (k = 0%nat) as -> by lia.
      vm_compute in Hinv. injection Hinv as Hseq _ _.
      change ["005"%byte] with ([] ++ [x05]) in Hseq.
      apply app_inj_tail in Hseq. destruct Hseq as [_ <-].
      discriminate He. }
  split; [|split].
  - apply (proj1 RepeatUntilExcluding_parse_correct byte f Bytes1 "top"%string
             1%nat 2%nat stream [] [x05] _ _ Hspec). lia.
  - apply (proj1 (proj2 RepeatUntilExcluding_parse_correct) byte f Bytes1
             "top"%string 2%nat stream []). reflexivity.
  - apply (proj1 (proj2 (proj2 RepeatUntilExcluding_parse_correct))
             (fun e => Py.ord e =? 0) [x01; x02] x00 [] 5%nat
             [x01; x02; x00] 0%nat [] "top"%string);
      try reflexivity.
    cbn [List.length]. lia.
Defined.

(** C10: when the predicate given to [RepeatUntilExcluding] is not callable,
    truthy or falsy, the lambda that replaces it is true on the first
    iteration: parsing invokes the subcon once and returns the empty
    sequence (or raises what the subcon raised). *)
Theorem RepeatUntilExcluding_constant_predicate :
  (forall (E : Type) (v : value) (e : E) (obj : list E) (context : Container),
      call_predicate (bind_predicate (constant v)) e obj context = true)
  /\ (forall (E : Type) (v : value) (subcon : Parser E) (fuel : nat)
             (stream : Stream) (context : Container) (path : string),
         RepeatUntilExcluding_parse (constant v) subcon (S fuel)
                                    stream context path
         = match subcon stream
                        (setitem context (Some "_index"%string) (VInt 0))
                        path with
           | Return _ stream' context' => Some (Return [] stream' context')
           | Raise e stream' context' => Some (Raise e stream' context')
           end)
  /\ (forall (v : value) (fuel : nat) (b : byte) (tl : list byte)
             (context : Container) (path : string),
         RepeatUntilExcluding_parse (constant v) Bytes1 (S fuel)
                                    (mkStream (b :: tl) 0) context path
         = Some (Return [] (mkStream (b :: tl) 1)
                   (setitem context (Some "_index"%string) (VInt 0))))
  /\ RepeatUntilExcluding_parse (constant (VBool false)) Bytes1 1
       (mkStream [x01; x02; x03; x00; x09; x09] 0) parse_stream_context
       "(parsing)"%string
     = Some (Return [] (mkStream [x01; x02; x03; x00; x09; x09] 1)
               (parse_stream_context ++ [(Some "_index"%string, VInt 0)]))
  /\ RepeatUntilExcluding_parse (constant (VBool true)) Bytes1 1
       (mkStream [x01; x02; x03; x00; x09; x09] 0) parse_stream_context
       "(parsing)"%string
     = Some (Return [] (mkStream [x01; x02; x03; x00; x09; x09] 1)
               (parse_stream_context ++ [(Some "_index"%string, VInt 0)])).
Proof.
  split; [|split; [|split; [|split]]].
  - reflexivity.
  - intros E v subcon fuel stream context path.
    unfold RepeatUntilExcluding_parse.
    cbn [bind_predicate RepeatUntilExcluding_loop]. cbv zeta.
    destruct (subcon stream _ path); reflexivity.
  - reflexivity.
  - reflexivity.
  - reflexivity.
Qed.

(** C9: building with [RepeatUntilExcluding] raises [NotImplementedError]
    and its size computation raises [SizeofError], whatever the input;
    neither ever returns. *)
Theorem RepeatUntilExcluding_build_sizeof_fail :
  (forall (E : Type) (predicate : predicate_object (E := E))
          (subcon : Parser E) (obj : list E) (stream : Stream)
          (context : Container) (path : string),
      RepeatUntilExcluding_build predicate subcon obj stream context path
      = Raise (NotImplementedError "no building") stream context
      /\ forall v stream' context',
          RepeatUntilExcluding_build predicate subcon obj stream context path
          <> Return v stream' context')
  /\ (forall (E : Type) (predicate : predicate_object (E := E))
             (subcon : Parser E) (context : Container) (path : string),
         RepeatUntilExcluding_sizeof predicate subcon context path
         = Error (SizeofError
                    "cannot calculate size, amount depends on actual data" path)
         /\ forall n,
             RepeatUntilExcluding_sizeof predicate subcon context path <> Ok n).
Proof.
  split; intros; (split; [reflexivity | intros; discriminate]).
Qed.

(** C8: parsing [StreamOffset] at any stream offset returns that offset
    and leaves the stream as it was, so that what is parsed next starts at
    the same offset; its size is always zero.  At offset 10 it returns 10. *)
Theorem StreamOffset_parse_observes :
  (forall (stream : Stream) (context : Container) (path : string),
      StreamOffset_parse stream context path
      = Return (PInt (tell stream)) stream context)
  /\ (forall (A : Type) (next : Parser A) (stream : Stream)
             (context : Container) (path : string),
         match StreamOffset_parse stream context path with
         | Return _ stream' context' => next stream' context' path
         | Raise e stream' context' => Raise e stream' context'
         end
         = next stream context path)
  /\ (forall (context : Container) (path : string),
         StreamOffset_sizeof context path = Ok 0)
  /\ (forall (d : list byte) (context : Container) (path : string),
         StreamOffset_parse (mkStream d 10) context path
         = Return (PInt 10) (mkStream d 10) context)
  /\ (forall (d : list byte) (context : Container) (path : string),
         match StreamOffset_parse (mkStream d 10) context path with
         | Return _ stream' _ => fst (read stream' 1) = firstn 1 (skipn 10 d)
         | Raise _ _ _ => False
         end).
Proof.
  repeat split; reflexivity.
Qed.

(** [_build] in terms of [self.name]: nothing is written to the stream,
    which does not move; the position goes into the context under
    [self.name], other keys stay as they are, and [None] is returned. *)
Lemma StreamOffset_build_under_self_name :
  forall (self_name : key) (obj : parsed) (stream : Stream)
         (context : Container) (path : string),
    StreamOffset_build self_name obj stream context path
    = Return PNone stream (setitem context self_name (VInt (tell stream)))
    /\ getitem (setitem context self_name (VInt (tell stream))) self_name
       = Some (VInt (tell stream))
    /\ forall k, k <> self_name ->
                 getitem (setitem context self_name (VInt (tell stream))) k
                 = getitem context k.
Proof.
  intros self_name obj stream context path. split; [reflexivity|].
  split.
  - rewrite getitem_setitem, key_eqb_refl. reflexivity.
  - intros k Hk. rewrite getitem_setitem.
    destruct (key_eqb self_name k) eqn:E; [|reflexivity].
    apply key_eqb_eq in E. congruence.
Qed.

(** C7: what the code does where the claim asks for the declared field
    name.  A [StreamOffset()] has the name [None], and a field declared as
    ["here" / StreamOffset()] carries its name on the [Renamed] wrapper:
    building it writes nothing to the stream and returns [None], but the
    position of the output stream is stored in the context under the key
    [None], and the entry of the declared name is left as it was. *)
Theorem StreamOffset_build_misses_declared_name :
  name StreamOffset = None
  /\ (forall (newname : string) (obj : parsed) (stream : Stream)
             (context : Container) (path : string),
         Renamed_build newname StreamOffset_instance_build
                       obj stream context path
         = Return PNone stream (setitem context None (VInt (tell stream)))
         /\ getitem (setitem context None (VInt (tell stream))) None
            = Some (VInt (tell stream))
         /\ getitem (setitem context None (VInt (tell stream))) (Some newname)
            = getitem context (Some newname))
  /\ Renamed_build "here" StreamOffset_instance_build PNone
       (mkStream [x01; x02] 2) [] "(building)"%string
     = Return PNone (mkStream [x01; x02] 2) [(None, VInt 2)]
  /\ getitem [(None, VInt 2)] (Some "here"%string) = None.
Proof.
  split; [reflexivity|]. split; [|split; reflexivity].
  intros newname obj stream context path. split; [reflexivity|]. split.
  - rewrite getitem_setitem, key_eqb_refl. reflexivity.
  - rewrite getitem_setitem. reflexivity.
Qed.

(** ** CStringBytes *)

Lemma NullTerminated_loop_found (pre : list byte) :
  forall fuel acc d pos0 context path post,
    skipn pos0 d = pre ++ x00 :: post ->
    forallb (fun b => negb (Py.ord b =? 0)) pre = true ->
    (List.length pre < fuel)%nat ->
    NullTerminated_GreedyBytes_loop fuel acc (mkStream d pos0) context path
    = Some (Return (acc ++ pre) (mkStream d (pos0 + List.length pre + 1))
              context).
Proof.
  induction pre as [|b pre IH];
    intros fuel acc d pos0 context path post Hd Hpre Hfuel;
    (destruct fuel as [|fuel]; [cbn in Hfuel; lia|]);
    cbn [NullTerminated_GreedyBytes_loop];
    rewrite (Bytes1_next d pos0 _ _ _ path Hd).
  - cbn. rewrite app_nil_r, Nat.add_0_r. reflexivity.
  - cbn [forallb] in Hpre. apply andb_prop in Hpre. destruct Hpre as [Hb Hpre].
    apply negb_true_iff in Hb. rewrite Hb.
    rewrite (IH fuel (acc ++ [b]) d (pos0 + 1)%nat context path post).
    + rewrite <- app_assoc. cbn [app List.length].
      do 3 f_equal. lia.
    + apply (skipn_next _ _ _ _ Hd).
    + exact Hpre.
    + cbn [List.length] in Hfuel. lia.
Qed.

Lemma NullTerminated_loop_missing (rest : list byte) :
  forall fuel acc d pos0 context path,
    skipn pos0 d = rest ->
    forallb (fun b => negb (Py.ord b =? 0)) rest = true ->
    (List.length rest < fuel)%nat ->
    NullTerminated_GreedyBytes_loop fuel acc (mkStream d pos0) context path
    = Some (Raise (EndOfStream path) (mkStream d (pos0 + List.length rest))
              context).
Proof.
  induction rest as [|b rest IH];
    intros fuel acc d pos0 context path Hd Hrest Hfuel;
    (destruct fuel as [|fuel]; [cbn in Hfuel; lia|]);
    cbn [NullTerminated_GreedyBytes_loop].
  - rewrite (Bytes1_end d pos0 context path Hd).
    cbn [List.length]. rewrite Nat.add_0_r. reflexivity.
  - rewrite (Bytes1_next d pos0 _ _ _ path Hd).
    cbn [forallb] in Hrest. apply andb_prop in Hrest.
    destruct Hrest as [Hb Hrest].
    apply negb_true_iff in Hb. rewrite Hb.
    rewrite (IH fuel (acc ++ [b]) d (pos0 + 1)%nat context path).
    + cbn [List.length]. do 3 f_equal. lia.
    + apply (skipn_next _ _ _ _ Hd).
    + exact Hrest.
    + cbn [List.length] in Hfuel. lia.
Qed.

Lemma ord_zero (b : byte) : Py.ord b = 0 -> b = x00.
Proof. destruct b; try reflexivity; discriminate. Qed.

Lemma first_zero (l : list byte) :
  forallb (fun b => negb (Py.ord b =? 0)) l = true
  \/ exists pre post,
      l = pre ++ x00 :: post
      /\ forallb (fun b => negb (Py.ord b =? 0)) pre = true.
Proof.
  induction l as [|b l IH]; [left; reflexivity|].
  destruct (Z.eqb_spec (Py.ord b) 0) as [Hz|Hnz].
  - right. exists [], l. apply ord_zero in Hz. subst b. split; reflexivity.
  - destruct IH as [Hall | (pre & post & -> & Hpre)].
    + left. cbn [forallb]. rewrite Hall.
      destruct (Z.eqb_spec (Py.ord b) 0); [contradiction | reflexivity].
    + right. exists (b :: pre), post. split; [reflexivity|].
      cbn [forallb]. rewrite Hpre.
      destruct (Z.eqb_spec (Py.ord b) 0); [contradiction | reflexivity].
Qed.

(** One iteration per byte that is left, and one more, always suffice. *)
Lemma CStringBytes_terminates (extra : nat) (d : list byte) (pos0 : nat)
    (context : Container) (path : string) :
  exists r,
    CStringBytes (S (List.length (skipn pos0 d)) + extra)
                 (mkStream d pos0) context path
    = Some r.
Proof.
  unfold CStringBytes, NullTerminated_GreedyBytes_parse.
  destruct (first_zero (skipn pos0 d)) as [Hall | (pre & post & Hd & Hpre)].
  - eexists. apply NullTerminated_loop_missing; [reflexivity | exact Hall | lia].
  - eexists. apply (NullTerminated_loop_found pre _ [] d pos0 context path post);
      [exact Hd | exact Hpre |].
    rewrite Hd, length_app. lia.
Qed.

(** C6: [CStringBytes] reads bytes until a zero byte and returns the bytes
    read without the zero, leaving the cursor right after the zero byte
    ([b"hello\x00world"] gives [b"hello"] with the cursor at [world]); it
    fails with [EndOfStream] when the stream ends before a zero byte. *)
Theorem CStringBytes_parse_correct :
  (forall (pre post : list byte) (fuel : nat) (d : list byte) (pos0 : nat)
          (context : Container) (path : string),
      skipn pos0 d = pre ++ x00 :: post ->
      forallb (fun b => negb (Py.ord b =? 0)) pre = true ->
      (List.length pre < fuel)%nat ->
      CStringBytes fuel (mkStream d pos0) context path
      = Some (Return pre (mkStream d (pos0 + List.length pre + 1)) context)
      /\ remaining (mkStream d (pos0 + List.length pre + 1)) = post)
  /\ (forall (fuel : nat) (d : list byte) (pos0 : nat)
             (context : Container) (path : string),
         forallb (fun b => negb (Py.ord b =? 0)) (skipn pos0 d) = true ->
         (List.length (skipn pos0 d) < fuel)%nat ->
         CStringBytes fuel (mkStream d pos0) context path
         = Some (Raise (EndOfStream path)
                   (mkStream d (pos0 + List.length (skipn pos0 d))) context))
  /\ (forall (extra : nat) (d : list byte) (pos0 : nat)
             (context : Container) (path : string),
         exists r,
           CStringBytes (S (List.length (skipn pos0 d)) + extra)
                        (mkStream d pos0) context path
           = Some r)
  /\ (forall (extra : nat) (context : Container) (path : string),
         let input := list_byte_of_string "hello" ++ x00
                        :: list_byte_of_string "world" in
         CStringBytes (6 + extra) (mkStream input 0) context path
         = Some (Return (list_byte_of_string "hello") (mkStream input 6)
                   context)
         /\ remaining (mkStream input 6) = list_byte_of_string "world").
Proof.
  split; [|split; [|split]].
  - intros pre post fuel d pos0 context path Hd Hpre Hfuel. split.
    + unfold CStringBytes, NullTerminated_GreedyBytes_parse.
      rewrite (NullTerminated_loop_found pre fuel [] d pos0 context path post)
        by assumption.
      reflexivity.
    + unfold remaining. cbn [data pos].
      rewrite <- Nat.add_assoc, Nat.add_comm, <- skipn_skipn, Hd.
      rewrite Nat.add_comm, <- skipn_skipn.
      rewrite skipn_app, skipn_all, Nat.sub_diag. reflexivity.
  - intros fuel d pos0 context path Hrest Hfuel.
    unfold CStringBytes, NullTerminated_GreedyBytes_parse.
    apply NullTerminated_loop_missing; [reflexivity | assumption | assumption].
  - exact CStringBytes_terminates.
  - intros extra context path input. split; [|reflexivity].
    unfold CStringBytes, NullTerminated_GreedyBytes_parse.
    rewrite (NullTerminated_loop_found (list_byte_of_string "hello")
               (6 + extra) [] input 0 context path
               (list_byte_of_string "world"));
      try reflexivity.
    cbn. lia.
Qed.

Lemma CStringBytes_parse_correct_witness :
  (CStringBytes 3 (mkStream [x07; x61; x62; x00; x63] 1) [] "(parsing)"
   = Some (Return [x61; x62] (mkStream [x07; x61; x62; x00; x63] 4) [])
   /\ remaining (mkStream [x07; x61; x62; x00; x63] 4) = [x63])
  /\ CStringBytes 3 (mkStream [x61; x62] 0) [] "(parsing)"
     = Some (Raise (EndOfStream "(parsing)") (mkStream [x61; x62] 2) []).
Proof.
  split.
  - apply (proj1 CStringBytes_parse_correct [x61; x62] [x63] 3%nat
             [x07; x61; x62; x00; x63] 1%nat [] "(parsing)"%string);
      [reflexivity | reflexivity | cbn; lia].
  - apply (proj1 (proj2 CStringBytes_parse_correct) 3%nat [x61; x62] 0%nat
             [] "(parsing)"%string);
      [reflexivity | cbn; lia].
Defined.

(** ** EmbeddableStruct *)

Lemma getitem_app (c1 c2 : Container) (k : key) :
  getitem (c1 ++ c2) k
  = match getitem c1 k with
    | Some v => Some v
    | None => getitem c2 k
    end.
Proof.
  induction c1 as [|[k0 v0] c1 IH]; cbn [app getitem]; [reflexivity|].
  destruct (key_eqb k0 k); [reflexivity | exact IH].
Qed.

Lemma update_app (obj items1 items2 : Container) :
  update obj (items1 ++ items2) = update (update obj items1) items2.
Proof. apply fold_left_app. Qed.

(** Merging overwrites by key: after [obj.update(items)] a key holds the
    value of the last item written to it, or what it held before. *)
Lemma getitem_update (items : Container) :
  forall (obj : Container) (k : key),
    getitem (update obj items) k
    = match last_write items k with
      | Some v => Some v
      | None => getitem obj k
      end.
Proof.
  unfold last_write.
  induction items as [|[k0 v0] items IH]; intros obj k; [reflexivity|].
  change (update obj ((k0, v0) :: items))
    with (update (setitem obj k0 v0) items).
  rewrite IH. cbn [rev]. rewrite getitem_app.
  destruct (getitem (rev items) k); [reflexivity|].
  rewrite getitem_setitem. cbn [getitem].
  destruct (key_eqb k0 k); reflexivity.
Qed.

Lemma EmbeddableStruct_fields_app (pre : list Construct) :
  forall (post : list Construct) obj stream context path,
    EmbeddableStruct_fields (pre ++ post) obj stream context path
    = match EmbeddableStruct_fields pre obj stream context path with
      | Completed obj1 stream1 context1 =>
          EmbeddableStruct_fields post obj1 stream1 context1 path
      | ended => ended
      end.
Proof.
  induction pre as [|sc pre IH]; intros post obj stream context path;
    [reflexivity|].
  cbn [app EmbeddableStruct_fields].
  destruct (_parsereport sc stream context path) as [subobj s1 c1|e s1 c1].
  - destruct (truthy_name (name sc)); [apply IH|].
    destruct (truthy subobj && isinstance_Embed sc); [|apply IH].
    destruct (dict_update obj subobj); [apply IH | reflexivity].
  - destruct e; reflexivity.
Qed.

Lemma EmbeddableStruct_fields_stop (sc : Construct) (post : list Construct)
    obj stream context path stream' context' :
  _parsereport sc stream context path = Raise StopFieldError stream' context' ->
  EmbeddableStruct_fields (sc :: post) obj stream context path
  = Stopped obj stream' context'.
Proof.
  intros H. cbn [EmbeddableStruct_fields]. rewrite H. reflexivity.
Qed.

(** The result is the initial mapping with the writes of the fields
    applied in declaration order. *)
Lemma EmbeddableStruct_fields_writes (subcons : list Construct) :
  forall obj stream context path,
    match EmbeddableStruct_fields subcons obj stream context path with
    | Completed obj' _ _ | Stopped obj' _ _ =>
        obj' = update obj (field_writes subcons stream context path)
    | Failed _ _ _ => True
    end.
Proof.
  induction subcons as [|sc subcons IH]; intros obj stream context path;
    [reflexivity|].
  cbn [EmbeddableStruct_fields field_writes].
  destruct (_parsereport sc stream context path) as [subobj s1 c1|e s1 c1].
  - destruct (truthy_name (name sc)); [apply IH|].
    destruct (truthy subobj && isinstance_Embed sc); [|apply IH].
    destruct subobj; cbn [dict_update]; try exact I.
    rewrite update_app. apply IH.
  - destruct e; try exact I; reflexivity.
Qed.

(** C4: when a field of an [EmbeddableStruct] raises the stop signal, the
    struct stops at once, does not run the fields that remain, and returns
    the mapping of the fields parsed so far.  With four fields and the
    signal raised after field 2, the mapping holds fields 1 and 2 only and
    the cursor is right after field 2: fields 3 and 4 read nothing. *)
Theorem EmbeddableStruct_stop_field :
  (forall (pre : list Construct) (sc : Construct) (post : list Construct)
          obj stream context path obj1 stream1 context1 stream2 context2,
      EmbeddableStruct_fields pre obj stream context path
      = Completed obj1 stream1 context1 ->
      _parsereport sc stream1 context1 path
      = Raise StopFieldError stream2 context2 ->
      EmbeddableStruct_fields (pre ++ sc :: post) obj stream context path
      = Stopped obj1 stream2 context2)
  /\ (forall (pre : list Construct) (sc : Construct) (post : list Construct)
             stream context path child obj1 stream1 context1 stream2 context2,
         struct_context context true = Ok child ->
         EmbeddableStruct_fields pre
           (setitem [] (Some "_io"%string) (VRef the_stream)) stream child path
         = Completed obj1 stream1 context1 ->
         _parsereport sc stream1 context1 path
         = Raise StopFieldError stream2 context2 ->
         EmbeddableStruct_parse (pre ++ sc :: post) stream context path
         = Return (PContainer obj1) stream2 context)
  /\ (forall (b1 b2 : byte) (rest : list byte) (f3 f4 : Construct),
         let input := mkStream (b1 :: b2 :: rest) 0 in
         let fields12 :=
           [ (Some "f1"%string, VInt (Py.ord b1));
             (Some "f2"%string, VInt (Py.ord b2)) ] in
         parse_stream
           (EmbeddableStruct
              [ Renamed "f1" Byte; Renamed "f2" Byte;
                StopIf (fun _ => true); f3; f4 ])
           input
         = Return (PContainer ((Some "_io"%string, VRef the_stream) :: fields12))
             (mkStream (b1 :: b2 :: rest) 2) parse_stream_context
         /\ public_items ((Some "_io"%string, VRef the_stream) :: fields12)
            = fields12
         /\ remaining (mkStream (b1 :: b2 :: rest) 2) = rest)
  /\ (forall (b1 b2 : byte) (rest : list byte) (f4 : Construct),
         parse_stream
           (EmbeddableStruct
              [ Renamed "f1" Byte; Renamed "f2" Byte;
                Renamed "f3" (StopIf (fun _ => true)); f4 ])
           (mkStream (b1 :: b2 :: rest) 0)
         = Return (PContainer [ (Some "_io"%string, VRef the_stream);
                                (Some "f1"%string, VInt (Py.ord b1));
                                (Some "f2"%string, VInt (Py.ord b2)) ])
             (mkStream (b1 :: b2 :: rest) 2) parse_stream_context).
Proof.
  split; [|split; [|split]].
  - intros pre sc post obj stream context path obj1 stream1 context1
           stream2 context2 Hpre Hstop.
    rewrite EmbeddableStruct_fields_app, Hpre.
    apply EmbeddableStruct_fields_stop, Hstop.
  - intros pre sc post stream context path child obj1 stream1 context1
           stream2 context2 Hchild Hpre Hstop.
    unfold EmbeddableStruct_parse. rewrite Hchild.
    rewrite EmbeddableStruct_fields_app, Hpre.
    rewrite (EmbeddableStruct_fields_stop sc post _ _ _ _ _ _ Hstop).
    reflexivity.
  - intros b1 b2 rest f3 f4 input fields12. repeat split.
  - intros b1 b2 rest f4. reflexivity.
Qed.

Lemma EmbeddableStruct_stop_field_witness :
  EmbeddableStruct_parse
    ([Renamed "f1" Byte; Renamed "f2" Byte]
       ++ StopIf (fun _ => true) :: [Renamed "f3" Byte; Renamed "f4" Byte])
    (mkStream [x0a; x0b; x0c; x0d] 0) parse_stream_context "(parsing)"%string
  = Return (PContainer [ (Some "_io"%string, VRef the_stream);
                         (Some "f1"%string, VInt 10);
                         (Some "f2"%string, VInt 11) ])
      (mkStream [x0a; x0b; x0c; x0d] 2) parse_stream_context.
Proof.
  eapply (proj1 (proj2 EmbeddableStruct_stop_field)); reflexivity.
Defined.

(** C5: an [EmbeddableStruct] with the fields [a], [Embed(Struct(b, c))],
    [d] parses four values into one flat mapping with the entries [a], [b],
    [c], [d], with no container nested for [b] and [c]; when keys collide,
    merging overwrites by key and the last write in declaration order
    wins. *)
Theorem EmbeddableStruct_embed_flat :
  (forall (b1 b2 b3 b4 : byte) (rest : list byte),
      let flat :=
        [ (Some "a"%string, VInt (Py.ord b1));
          (Some "b"%string, VInt (Py.ord b2));
          (Some "c"%string, VInt (Py.ord b3));
          (Some "d"%string, VInt (Py.ord b4)) ] in
      parse_stream
        (EmbeddableStruct
           [ Renamed "a" Byte;
             Embed (Struct [Renamed "b" Byte; Renamed "c" Byte]);
             Renamed "d" Byte ])
        (mkStream (b1 :: b2 :: b3 :: b4 :: rest) 0)
      = Return (PContainer ((Some "_io"%string, VRef the_stream) :: flat))
          (mkStream (b1 :: b2 :: b3 :: b4 :: rest) 4) parse_stream_context
      /\ parse_stream
           (EmbeddableStruct
              [ Renamed "a" Byte;
                Embed (EmbeddableStruct [Renamed "b" Byte; Renamed "c" Byte]);
                Renamed "d" Byte ])
           (mkStream (b1 :: b2 :: b3 :: b4 :: rest) 0)
         = Return (PContainer ((Some "_io"%string, VRef the_stream) :: flat))
             (mkStream (b1 :: b2 :: b3 :: b4 :: rest) 4) parse_stream_context
      /\ public_items ((Some "_io"%string, VRef the_stream) :: flat) = flat
      /\ getitem flat (Some "b"%string) = Some (VInt (Py.ord b2))
      /\ getitem flat (Some "c"%string) = Some (VInt (Py.ord b3)))
  /\ (forall (subcons : list Construct) obj stream context path,
         match EmbeddableStruct_fields subcons obj stream context path with
         | Completed obj' _ _ | Stopped obj' _ _ =>
             obj' = update obj (field_writes subcons stream context path)
             /\ forall k,
                 getitem obj' k
                 = match last_write
                           (field_writes subcons stream context path) k with
                   | Some v => Some v
                   | None => getitem obj k
                   end
         | Failed _ _ _ => True
         end)
  /\ (forall (obj items : Container) (k : key),
         getitem (update obj items) k
         = match last_write items k with
           | Some v => Some v
           | None => getitem obj k
           end)
  /\ (forall (b1 b2 b3 b4 : byte) (rest : list byte),
         parse_stream
           (EmbeddableStruct
              [ Renamed "a" Byte;
                Embed (Struct [Renamed "a" Byte; Renamed "c" Byte]);
                Renamed "c" Byte ])
           (mkStream (b1 :: b2 :: b3 :: b4 :: rest) 0)
         = Return (PContainer [ (Some "_io"%string, VRef the_stream);
                                (Some "a"%string, VInt (Py.ord b2));
                                (Some "c"%string, VInt (Py.ord b4)) ])
             (mkStream (b1 :: b2 :: b3 :: b4 :: rest) 4) parse_stream_context).
Proof.
  split; [|split; [|split]].
  - intros b1 b2 b3 b4 rest flat. repeat split.
  - intros subcons obj stream context path.
    pose proof (EmbeddableStruct_fields_writes subcons obj stream context path)
      as H.
    destruct (EmbeddableStruct_fields subcons obj stream context path);
      [ | | exact I ];
      (split; [exact H | intros k; rewrite H; apply getitem_update]).
  - intros obj items k. apply getitem_update.
  - intros b1 b2 b3 b4 rest. reflexivity.
Qed.

(** * Further properties of the module *)

(** ** The value of a run of 7-bit digits *)

Lemma accumulate_app (a b : list byte) :
  Spec.accumulate (a ++ b)
  = Spec.accumulate a + 2 ^ (7 * Z.of_nat (List.length a)) * Spec.accumulate b.
Proof.
  induction a as [|x a IH].
  - cbn [app List.length]. change (Spec.accumulate []) with 0.
    change (2 ^ (7 * Z.of_nat 0)) with 1. lia.
  - cbn [app]. rewrite !accumulate_cons, IH.
    rewrite !Z.shiftl_mul_pow2 by lia.
    cbn [List.length]. rewrite Nat2Z.inj_succ.
    replace (7 * Z.succ (Z.of_nat (List.length a)))
      with (7 * Z.of_nat (List.length a) + 7) by lia.
    rewrite Z.pow_add_r by lia. lia.
Qed.

Lemma accumulate_bound (run : list byte) :
  0 <= Spec.accumulate run < 2 ^ (7 * Z.of_nat (List.length run)).
Proof.
  induction run as [|x run IH].
  - cbn. lia.
  - rewrite accumulate_cons, Z.shiftl_mul_pow2 by lia.
    cbn [List.length]. rewrite Nat2Z.inj_succ.
    replace (7 * Z.succ (Z.of_nat (List.length run)))
      with (7 * Z.of_nat (List.length run) + 7) by lia.
    rewrite Z.pow_add_r by lia. change (2 ^ 7) with 128.
    pose proof (low7_range (Py.ord x)). lia.
Qed.

(** X1: the unsigned decoder inverts the reference encoder on every
    non-negative integer, directly and when [ULEB128] reads the encoded run
    from the front of a stream (the cursor then stands right after the run). *)
Theorem ULEB128_roundtrip_all (n : Z) (rest : list byte) (extra : nat)
    (context : Container) (path : string) :
  0 <= n ->
  _ULEB128Adapter_decode (Spec.encode_bytes n) = Ok n
  /\ remaining (mkStream (Spec.encode_bytes n ++ rest)
                         (List.length (Spec.encode_bytes n))) = rest
  /\ ULEB128 (List.length (Spec.encode_bytes n) + extra)
             (mkStream (Spec.encode_bytes n ++ rest) 0) context path
     = Some (Return n
               (mkStream (Spec.encode_bytes n ++ rest)
                         (List.length (Spec.encode_bytes n)))
               (setitem context (Some "_index"%string)
                  (VInt (Z.of_nat (List.length (Spec.encode_bytes n)) - 1)))).
Proof.
  intros Hn. split; [apply decode_encode_bytes; exact Hn|]. split.
  - unfold remaining. cbn [data pos].
    rewrite skipn_app, skipn_all, Nat.sub_diag. reflexivity.
  - apply ULEB128_parse_encoded. exact Hn.
Qed.

Lemma ULEB128_roundtrip_all_witness :
  _ULEB128Adapter_decode (Spec.encode_bytes 624485) = Ok 624485
  /\ remaining (mkStream (Spec.encode_bytes 624485 ++ [x2a])
                         (List.length (Spec.encode_bytes 624485))) = [x2a]
  /\ ULEB128 (List.length (Spec.encode_bytes 624485) + 0)
             (mkStream (Spec.encode_bytes 624485 ++ [x2a]) 0) [] "(parsing)"
     = Some (Return 624485
               (mkStream (Spec.encode_bytes 624485 ++ [x2a])
                         (List.length (Spec.encode_bytes 624485)))
               (setitem [] (Some "_index"%string)
                  (VInt (Z.of_nat (List.length (Spec.encode_bytes 624485)) - 1)))).
Proof.
  apply (ULEB128_roundtrip_all 624485 [x2a] 0 [] "(parsing)"%string). lia.
Defined.

(** X2: the unsigned decoder never returns a negative number, and a list of
    [k] bytes decodes to a value below [2^(7k)]; the empty list decodes to
    [0]. *)
Theorem ULEB128_decode_range :
  (forall obj : list byte,
      exists v,
        _ULEB128Adapter_decode obj = Ok v
        /\ 0 <= v < 2 ^ (7 * Z.of_nat (List.length obj)))
  /\ _ULEB128Adapter_decode [] = Ok 0.
Proof.
  split; [|reflexivity].
  intros obj. exists (Spec.accumulate obj). split.
  - unfold _ULEB128Adapter_decode. rewrite fold_accumulate. reflexivity.
  - apply accumulate_bound.
Qed.

(** X3: the unsigned decoder is positional: the bytes are base-128 digits,
    least significant first, so a list [a ++ b] decodes to the value of [a]
    plus [2^(7 * len a)] times the value of [b]; the high bit of a byte has
    no part in the value, and bytes whose low seven bits are zero, appended
    to a list, do not change what it decodes to. *)
Theorem ULEB128_decode_positional :
  (forall (a b : list byte) (va vb : Z),
      _ULEB128Adapter_decode a = Ok va ->
      _ULEB128Adapter_decode b = Ok vb ->
      _ULEB128Adapter_decode (a ++ b)
      = Ok (va + 2 ^ (7 * Z.of_nat (List.length a)) * vb))
  /\ (forall (a pad : list byte),
         forallb (fun x => Z.land (Py.ord x) 0x7F =? 0) pad = true ->
         _ULEB128Adapter_decode (a ++ pad) = _ULEB128Adapter_decode a).
Proof.
  assert (Hpos : forall a b va vb,
             _ULEB128Adapter_decode a = Ok va ->
             _ULEB128Adapter_decode b = Ok vb ->
             _ULEB128Adapter_decode (a ++ b)
             = Ok (va + 2 ^ (7 * Z.of_nat (List.length a)) * vb)).
  { intros a b va vb Ha Hb. unfold _ULEB128Adapter_decode in *.
    rewrite fold_accumulate in *. injection Ha as <-. injection Hb as <-.
    rewrite accumulate_app. reflexivity. }
  split; [exact Hpos|].
  intros a pad Hpad.
  assert (Hzero : Spec.accumulate pad = 0).
  { induction pad as [|x pad IH]; [reflexivity|].
    cbn [forallb] in Hpad. apply andb_prop in Hpad. destruct Hpad as [Hx Hpad].
    apply Z.eqb_eq in Hx.
    rewrite accumulate_cons, (IH Hpad), Hx. reflexivity. }
  unfold _ULEB128Adapter_decode. rewrite !fold_accumulate, accumulate_app, Hzero.
  f_equal. lia.
Qed.

Lemma ULEB128_decode_positional_witness :
  _ULEB128Adapter_decode ([xe5; x0e] ++ [x26])
  = Ok (1893 + 2 ^ (7 * Z.of_nat (List.length [xe5; x0e])) * 38)
  /\ _ULEB128Adapter_decode ([x05] ++ [x80; x00]) = _ULEB128Adapter_decode [x05].
Proof.
  split.
  - apply (proj1 ULEB128_decode_positional [xe5; x0e] [x26] 1893 38);
      reflexivity.
  - apply (proj2 ULEB128_decode_positional [x05] [x80; x00]). reflexivity.
Defined.

(** ** The signed decoder as a two's complement reading *)

Lemma lor_neg_pow2 (u m : Z) :
  0 <= m -> 0 <= u < 2 ^ m -> Z.lor u (- Z.shiftl 1 m) = u - 2 ^ m.
Proof.
  intros Hm Hu.
  assert (Hneg : - Z.shiftl 1 m = Z.shiftl (-1) m).
  { rewrite !Z.shiftl_mul_pow2 by exact Hm. lia. }
  assert (H0 : Z.land u (- Z.shiftl 1 m) = 0).
  { rewrite Hneg. apply Z.bits_inj'. intros i Hi.
    rewrite Z.land_spec, Z.bits_0.
    destruct (Z.ltb_spec i m).
    - rewrite Z.shiftl_spec_low by lia. apply andb_false_r.
    - assert (Hb : Z.testbit u i = false).
      { destruct (Z.eq_dec u 0) as [->|Hnz]; [apply Z.bits_0|].
        apply Z.bits_above_log2; [lia|].
        assert (Z.log2 u < m); [|lia].
        apply Z.log2_lt_pow2; lia. }
      rewrite Hb. reflexivity. }
  rewrite <- Z.lxor_lor by exact H0.
  rewrite <- Z.add_nocarry_lxor by exact H0.
  rewrite Z.shiftl_mul_pow2 by exact Hm. lia.
Qed.

Lemma sign_bit_of_byte (t : byte) :
  Z.testbit (Py.ord t) 6 = (0x40 <=? Z.land (Py.ord t) 0x7F).
Proof. destruct t; reflexivity. Qed.

Lemma SLEB128_decode_twos_complement (init : list byte) (t : byte) :
  _SLEB128Adapter_decode (init ++ [t])
  = Ok (twos_complement (7 * Z.of_nat (List.length (init ++ [t])))
          (Spec.accumulate (init ++ [t]))).
Proof.
  rewrite SLEB128_decode_run. f_equal.
  unfold Spec.sign_extend, twos_complement.
  pose proof (accumulate_bound (init ++ [t])) as Hu.
  rewrite accumulate_app in *.
  rewrite length_app in *. cbn [List.length] in *.
  rewrite Nat2Z.inj_add in *. change (Z.of_nat 1) with 1 in *.
  set (m := 7 * Z.of_nat (List.length init)) in *.
  replace (7 * (Z.of_nat (List.length init) + 1)) with (m + 7) in * by lia.
  replace (m + 7 - 1) with (m + 6) by lia.
  assert (Hm : 0 <= m) by lia.
  rewrite accumulate_cons in *. change (Spec.accumulate []) with 0 in *.
  rewrite Z.shiftl_0_l, Z.add_0_l in *.
  pose proof (accumulate_bound init) as Hi. fold m in Hi.
  pose proof (low7_range (Py.ord t)) as Hd.
  rewrite sign_bit_of_byte.
  set (d := Z.land (Py.ord t) 0x7F) in *.
  assert (Hp : 0 < 2 ^ m) by (apply Z.pow_pos_nonneg; lia).
  rewrite (Z.pow_add_r 2 m 6) by lia. change (2 ^ 6) with 64.
  destruct (Z.leb_spec 0x40 d) as [Hs|Hs].
  - rewrite lor_neg_pow2 by lia.
    destruct (Z.ltb_spec (Spec.accumulate init + 2 ^ m * d) (2 ^ m * 64));
      [nia | reflexivity].
  - destruct (Z.ltb_spec (Spec.accumulate init + 2 ^ m * d) (2 ^ m * 64));
      [reflexivity | nia].
Qed.

Lemma twos_complement_range (bits u : Z) :
  0 < bits -> 0 <= u < 2 ^ bits ->
  - 2 ^ (bits - 1) <= twos_complement bits u < 2 ^ (bits - 1)
  /\ (twos_complement bits u < 0 <-> 2 ^ (bits - 1) <= u).
Proof.
  intros Hb Hu. unfold twos_complement.
  assert (Hpow : 2 ^ bits = 2 * 2 ^ (bits - 1)).
  { replace bits with (Z.succ (bits - 1)) at 1 by lia.
    apply Z.pow_succ_r. lia. }
  destruct (Z.ltb_spec u (2 ^ (bits - 1))); lia.
Qed.

(** X4: on a list that is not empty the signed decoder returns the value
    of the unsigned decoder read as a two's complement number of
    [7 * len(obj)] bits: the same value when it is below [2^(7k-1)], and
    that value minus [2^(7k)] otherwise. *)
Theorem SLEB128_is_twos_complement_of_ULEB128 (obj : list byte) :
  obj <> [] ->
  exists u,
    _ULEB128Adapter_decode obj = Ok u
    /\ _SLEB128Adapter_decode obj
       = Ok (twos_complement (7 * Z.of_nat (List.length obj)) u).
Proof.
  intros Hne. destruct (exists_last Hne) as (init & t & ->).
  exists (Spec.accumulate (init ++ [t])). split.
  - unfold _ULEB128Adapter_decode. rewrite fold_accumulate. reflexivity.
  - apply SLEB128_decode_twos_complement.
Qed.

Lemma SLEB128_is_twos_complement_of_ULEB128_witness :
  exists u,
    _ULEB128Adapter_decode [x80; x7f] = Ok u
    /\ _SLEB128Adapter_decode [x80; x7f]
       = Ok (twos_complement (7 * Z.of_nat (List.length [x80; x7f])) u).
Proof.
  apply (SLEB128_is_twos_complement_of_ULEB128 [x80; x7f]). discriminate.
Defined.

(** X5: a list of [k] bytes decodes, signed, to a value in
    [-2^(7k-1) .. 2^(7k-1) - 1], and the value is negative exactly when bit
    6 of the last byte is set; the empty list, which has no last byte,
    makes the signed decoder raise [IndexError]. *)
Theorem SLEB128_decode_range :
  (forall (obj : list byte) (v : Z),
      _SLEB128Adapter_decode obj = Ok v ->
      exists t,
        Py.last_item obj = Some t
        /\ - 2 ^ (7 * Z.of_nat (List.length obj) - 1) <= v
           < 2 ^ (7 * Z.of_nat (List.length obj) - 1)
        /\ (v < 0 <-> Z.testbit (Py.ord t) 6 = true))
  /\ _SLEB128Adapter_decode [] = Error IndexError.
Proof.
  split; [|reflexivity].
  intros obj v H.
  destruct obj as [|x obj]; [discriminate|].
  assert (Hne : x :: obj <> []) by discriminate.
  destruct (exists_last Hne) as (init & t & E). rewrite E in *.
  exists t. split; [apply last_item_app|].
  rewrite SLEB128_decode_twos_complement in H. injection H as <-.
  pose proof (accumulate_bound (init ++ [t])) as Hu.
  set (k := Z.of_nat (List.length (init ++ [t]))) in *.
  assert (Hk : 0 < 7 * k).
  { unfold k. rewrite length_app. cbn [List.length]. lia. }
  destruct (twos_complement_range (7 * k) _ Hk Hu) as [Hrange Hsign].
  split; [exact Hrange|].
  rewrite Hsign. clear Hrange Hsign.
  (* the unsigned value reaches 2^(7k-1) exactly when the last digit has
     its bit 6 set *)
  unfold k in *. clear k Hk.
  rewrite accumulate_app in *. rewrite length_app in *.
  cbn [List.length] in *. rewrite Nat2Z.inj_add in *.
  change (Z.of_nat 1) with 1 in *.
  set (m := 7 * Z.of_nat (List.length init)) in *.
  replace (7 * (Z.of_nat (List.length init) + 1) - 1) with (m + 6) by lia.
  rewrite accumulate_cons. change (Spec.accumulate []) with 0.
  rewrite Z.shiftl_0_l, Z.add_0_l.
  pose proof (accumulate_bound init) as Hi. fold m in Hi.
  pose proof (low7_range (Py.ord t)) as Hd.
  rewrite sign_bit_of_byte, Z.leb_le.
  assert (Hp : 0 < 2 ^ m) by (apply Z.pow_pos_nonneg; lia).
  rewrite (Z.pow_add_r 2 m 6) by lia. change (2 ^ 6) with 64.
  split; intros; nia.
Qed.

Lemma SLEB128_decode_range_witness :
  exists t,
    Py.last_item [xff; x7e] = Some t
    /\ - 2 ^ (7 * Z.of_nat (List.length [xff; x7e]) - 1) <= -129
       < 2 ^ (7 * Z.of_nat (List.length [xff; x7e]) - 1)
    /\ (-129 < 0 <-> Z.testbit (Py.ord t) 6 = true).
Proof.
  apply (proj1 SLEB128_decode_range [xff; x7e] (-129)). reflexivity.
Defined.

(** ** The signed decoder and the signed encoder *)

Lemma twos_complement_mod (bits n : Z) :
  0 < bits -> - 2 ^ (bits - 1) <= n < 2 ^ (bits - 1) ->
  twos_complement bits (n mod 2 ^ bits) = n.
Proof.
  intros Hb Hn. unfold twos_complement.
  assert (Hpow : 2 ^ bits = 2 * 2 ^ (bits - 1)).
  { replace bits with (Z.succ (bits - 1)) at 1 by lia.
    apply Z.pow_succ_r. lia. }
  assert (Hp : 0 < 2 ^ (bits - 1)) by (apply Z.pow_pos_nonneg; lia).
  destruct (Z_lt_le_dec n 0) as [Hneg|Hpos].
  - assert (Hm : n mod 2 ^ bits = n + 2 ^ bits).
    { symmetry. apply (Z.mod_unique n (2 ^ bits) (-1)); lia. }
    rewrite Hm. destruct (Z.ltb_spec (n + 2 ^ bits) (2 ^ (bits - 1))); lia.
  - rewrite Z.mod_small by lia.
    destruct (Z.ltb_spec n (2 ^ (bits - 1))); lia.
Qed.

Lemma pow2_7_succ (j : nat) :
  (0 < j)%nat ->
  2 ^ (7 * Z.of_nat (S j) - 1) = 128 * 2 ^ (7 * Z.of_nat j - 1)
  /\ 2 ^ (7 * Z.of_nat (S j)) = 128 * 2 ^ (7 * Z.of_nat j)
  /\ 0 < 2 ^ (7 * Z.of_nat j - 1)
  /\ 0 < 2 ^ (7 * Z.of_nat j).
Proof.
  intros Hj. rewrite Nat2Z.inj_succ.
  replace (7 * Z.succ (Z.of_nat j) - 1) with (7 + (7 * Z.of_nat j - 1)) by lia.
  replace (7 * Z.succ (Z.of_nat j)) with (7 + 7 * Z.of_nat j) by lia.
  rewrite !Z.pow_add_r by lia. change (2 ^ 7) with 128.
  repeat split; try reflexivity; apply Z.pow_pos_nonneg; lia.
Qed.

Lemma sleb128_encode_loop_correct (fuel : nat) :
  forall n,
    (0 < fuel)%nat ->
    - 2 ^ (7 * Z.of_nat fuel - 1) <= n < 2 ^ (7 * Z.of_nat fuel - 1) ->
    let run := sleb128_encode_loop fuel n in
    let k := Z.of_nat (List.length run) in
    run <> []
    /\ Spec.byte_run run = true
    /\ Spec.accumulate run = n mod 2 ^ (7 * k)
    /\ - 2 ^ (7 * k - 1) <= n < 2 ^ (7 * k - 1).
Proof.
  induction fuel as [|fuel IH]; intros n Hfuel Hn; [lia|].
  cbn [sleb128_encode_loop]. cbv zeta.
  pose proof (low7_range n) as Hb.
  pose proof (div_mod_128 n) as Hdm.
  rewrite Z.shiftl_mul_pow2 in Hdm by lia. change (2 ^ 7) with 128 in Hdm.
  set (b := Z.land n 0x7F) in *. set (n' := Z.shiftr n 7) in *.
  destruct (((n' =? 0) && (b <? 0x40)) || ((n' =? -1) && (0x40 <=? b)))
    eqn:Hstop.
  - (* the last byte *)
    cbn [List.length]. change (7 * Z.of_nat 1) with 7.
    change (2 ^ 7) with 128. change (2 ^ (7 - 1)) with 64.
    split; [discriminate|]. split; [|split].
    + cbn [Spec.byte_run]. rewrite ord_byte_of_int by lia. apply Z.ltb_lt. lia.
    + rewrite accumulate_cons. change (Spec.accumulate []) with 0.
      rewrite ord_byte_of_int by lia. rewrite low7_of_small by exact Hb.
      rewrite Z.shiftl_0_l, Z.add_0_l.
      apply (Z.mod_unique n 128 n'); lia.
    + apply orb_prop in Hstop.
      destruct Hstop as [H|H]; apply andb_prop in H; destruct H as [H1 H2];
        apply Z.eqb_eq in H1; [apply Z.ltb_lt in H2 | apply Z.leb_le in H2];
        lia.
  - (* a continuation byte *)
    assert (Hfuel' : (0 < fuel)%nat).
    { destruct fuel; [|lia]. exfalso.
      change (2 ^ (7 * Z.of_nat 1 - 1)) with 64 in Hn.
      assert (Hcases : (n' = 0 /\ b < 64) \/ (n' = -1 /\ 64 <= b)) by lia.
      destruct Hcases as [[H1 H2]|[H1 H2]]; rewrite H1 in Hstop;
        [apply Z.ltb_lt in H2 | apply Z.leb_le in H2];
        cbn in Hstop; rewrite H2 in Hstop; discriminate. }
    destruct (pow2_7_succ fuel Hfuel') as (Hp1 & _ & Hp2 & _).
    rewrite Hp1 in Hn.
    assert (Hn' : - 2 ^ (7 * Z.of_nat fuel - 1) <= n'
                  < 2 ^ (7 * Z.of_nat fuel - 1)) by lia.
    destruct (IH n' Hfuel' Hn') as (Hne & Hrun & Hacc & Hrange).
    set (run' := sleb128_encode_loop fuel n') in *.
    assert (Hk' : (0 < List.length run')%nat)
      by (destruct run'; [congruence | cbn; lia]).
    destruct (pow2_7_succ (List.length run') Hk') as (Hq1 & Hq2 & Hq3 & Hq4).
    change (List.length (Py.byte_of_int (Z.lor b 0x80) :: run'))
      with (S (List.length run')).
    split; [discriminate|]. split; [|split].
    + rewrite byte_run_cons by exact Hne. rewrite Hrun.
      rewrite set_high_bit by exact Hb. rewrite ord_byte_of_int by lia.
      rewrite andb_true_r. apply Z.leb_le. lia.
    + rewrite accumulate_cons, Hacc.
      rewrite set_high_bit by exact Hb. rewrite ord_byte_of_int by lia.
      rewrite low7_of_continuation by exact Hb.
      rewrite Z.shiftl_mul_pow2 by lia. change (2 ^ 7) with 128.
      rewrite Hq2.
      set (M := 2 ^ (7 * Z.of_nat (List.length run'))) in *.
      pose proof (Z.div_mod n' M) as Hd.
      pose proof (Z.mod_pos_bound n' M Hq4) as Hr.
      apply (Z.mod_unique n (128 * M) (n' / M)); [left|]; nia.
    + rewrite Hq1. lia.
Qed.

Lemma sleb128_encode_fuel (n : Z) :
  let fuel := S (Z.to_nat (Z.log2 (Z.abs n))) in
  - 2 ^ (7 * Z.of_nat fuel - 1) <= n < 2 ^ (7 * Z.of_nat fuel - 1).
Proof.
  cbv zeta. rewrite Nat2Z.inj_succ, Z2Nat.id by apply Z.log2_nonneg.
  set (l := Z.log2 (Z.abs n)).
  assert (Hl : 0 <= l) by apply Z.log2_nonneg.
  assert (Habs : Z.abs n < 2 ^ Z.succ l).
  { destruct (Z.eq_dec (Z.abs n) 0) as [E|E].
    - rewrite E. apply Z.pow_pos_nonneg; lia.
    - apply Z.log2_spec. lia. }
  assert (Hle : 2 ^ Z.succ l <= 2 ^ (7 * Z.succ l - 1))
    by (apply Z.pow_le_mono_r; lia).
  lia.
Qed.

(** X6: the signed decoder inverts the signed LEB128 encoder on every
    integer, negative ones included: the encoder's output is a byte run,
    [_decode] gives the integer back, and so does [SLEB128] when it reads
    the run from the front of a stream. *)
Theorem SLEB128_roundtrip_all :
  forall (n : Z) (rest : list byte) (extra : nat)
         (context : Container) (path : string),
    let run := sleb128_encode n in
    Spec.byte_run run = true
    /\ _SLEB128Adapter_decode run = Ok n
    /\ SLEB128 (List.length run + extra) (mkStream (run ++ rest) 0) context path
       = Some (Return n (mkStream (run ++ rest) (List.length run))
                 (setitem context (Some "_index"%string)
                    (VInt (Z.of_nat (List.length run) - 1)))).
Proof.
  intros n rest extra context path run.
  destruct (sleb128_encode_loop_correct
              (S (Z.to_nat (Z.log2 (Z.abs n)))) n
              ltac:(lia) (sleb128_encode_fuel n))
    as (Hne & Hrun & Hacc & Hrange).
  fold (sleb128_encode n) in *. fold run in Hne, Hrun, Hacc, Hrange.
  assert (Hk : 0 < 7 * Z.of_nat (List.length run))
    by (destruct run; [congruence | cbn [List.length]; lia]).
  assert (Hdec : _SLEB128Adapter_decode run = Ok n).
  { destruct (exists_last Hne) as (init & t & E). rewrite E in *.
    rewrite SLEB128_decode_twos_complement, Hacc.
    rewrite twos_complement_mod by assumption. reflexivity. }
  split; [exact Hrun|]. split; [exact Hdec|].
  unfold SLEB128, Adapter_parse.
  rewrite LEB128_reader_run by (assumption || lia).
  rewrite Hdec. reflexivity.
Qed.

(** ** What the LEB128 reader consumes *)

Lemma Bytes1_Return_inv (stream : Stream) (context : Container) (path : string)
    (b : byte) (stream' : Stream) (context' : Container) :
  Bytes1 stream context path = Return b stream' context' ->
  remaining stream = b :: remaining stream'
  /\ stream' = mkStream (data stream) (pos stream + 1)
  /\ context' = context.
Proof.
  destruct stream as [d p]. unfold Bytes1, stream_read, read, remaining.
  cbn [data pos]. destruct (skipn p d) as [|b0 tl] eqn:Hd; cbn.
  - discriminate.
  - intros H. injection H as <- <- <-. cbn [data pos].
    rewrite (skipn_next _ _ _ _ Hd). repeat split.
Qed.

Lemma Bytes1_Raise_inv (stream : Stream) (context : Container) (path : string)
    (e : exn) (stream' : Stream) (context' : Container) :
  Bytes1 stream context path = Raise e stream' context' ->
  e = EndOfStream path
  /\ remaining stream = []
  /\ stream' = stream
  /\ context' = context.
Proof.
  destruct stream as [d p]. unfold Bytes1, stream_read, read, remaining.
  cbn [data pos]. destruct (skipn p d) as [|b0 tl] eqn:Hd; cbn.
  - intros H. injection H as <- <- <-. rewrite Nat.add_0_r. repeat split.
  - discriminate.
Qed.

Lemma LEB128_reader_loop_sound (fuel : nat) :
  forall i acc stream context path obj stream' context',
    RepeatUntil_loop (fun obj _ _ => Py.ord obj <? 0x80) Bytes1
                     fuel i acc stream context path
    = Some (Return obj stream' context') ->
    exists run,
      obj = acc ++ run
      /\ run <> []
      /\ remaining stream = run ++ remaining stream'
      /\ stream' = mkStream (data stream) (pos stream + List.length run)
      /\ context' = setitem context (Some "_index"%string)
                            (VInt (i + Z.of_nat (List.length run) - 1)).
Proof.
  induction fuel as [|fuel IH];
    intros i acc stream context path obj stream' context' H; [discriminate|].
  cbn [RepeatUntil_loop] in H. cbv zeta in H.
  destruct (Bytes1 stream _ path) as [b s1 c1|] eqn:Hb; [|discriminate].
  apply Bytes1_Return_inv in Hb. destruct Hb as (Hrem & -> & ->).
  destruct (Py.ord b <? 0x80).
  - injection H as <- <- <-. exists [b]. cbn [List.length app].
    repeat split; try assumption; try discriminate.
    do 2 f_equal. lia.
  - apply IH in H. destruct H as (run & -> & _ & Hrem' & -> & ->).
    exists (b :: run). cbn [data pos List.length] in *.
    rewrite <- app_assoc. cbn [app].
    repeat split; try discriminate.
    + rewrite Hrem, Hrem'. reflexivity.
    + f_equal. lia.
    + rewrite setitem_setitem. do 2 f_equal. lia.
Qed.

Lemma LEB128_reader_loop_raise (fuel : nat) :
  forall i acc stream context path e stream' context',
    RepeatUntil_loop (fun obj _ _ => Py.ord obj <? 0x80) Bytes1
                     fuel i acc stream context path
    = Some (Raise e stream' context') ->
    e = EndOfStream path
    /\ forallb (fun x => 0x80 <=? Py.ord x) (remaining stream) = true
    /\ stream' = mkStream (data stream)
                          (pos stream + List.length (remaining stream)).
Proof.
  induction fuel as [|fuel IH];
    intros i acc stream context path e stream' context' H; [discriminate|].
  cbn [RepeatUntil_loop] in H. cbv zeta in H.
  destruct (Bytes1 stream _ path) as [b s1 c1|e1 s1 c1] eqn:Hb.
  - apply Bytes1_Return_inv in Hb. destruct Hb as (Hrem & -> & ->).
    destruct (Z.ltb_spec (Py.ord b) 0x80) as [|Hcont]; [discriminate|].
    apply IH in H. destruct H as (-> & Hall & ->).
    cbn [data pos] in *. rewrite Hrem. cbn [forallb List.length].
    rewrite Hall, andb_true_r.
    repeat split; [apply Z.leb_le; exact Hcont | f_equal; lia].
  - injection H as <- <- <-.
    apply Bytes1_Raise_inv in Hb. destruct Hb as (-> & Hrem & -> & _).
    rewrite Hrem. cbn [forallb List.length]. rewrite Nat.add_0_r.
    destruct stream; repeat split.
Qed.

Lemma LEB128_reader_loop_terminates (fuel : nat) :
  forall i acc stream context path,
    (List.length (remaining stream) < fuel)%nat ->
    exists r,
      RepeatUntil_loop (fun obj _ _ => Py.ord obj <? 0x80) Bytes1
                       fuel i acc stream context path
      = Some r.
Proof.
  induction fuel as [|fuel IH]; intros i acc stream context path Hfuel; [lia|].
  cbn [RepeatUntil_loop]. cbv zeta.
  destruct (Bytes1 stream _ path) as [b s1 c1|e1 s1 c1] eqn:Hb;
    [|eexists; reflexivity].
  apply Bytes1_Return_inv in Hb. destruct Hb as (Hrem & -> & ->).
  destruct (Py.ord b <? 0x80); [eexists; reflexivity|].
  apply IH. rewrite Hrem in Hfuel. cbn [List.length] in Hfuel.
  unfold remaining in *. cbn [data pos] in *. lia.
Qed.

Lemma LEB128_reader_loop_truncated (rest : list byte) :
  forall fuel i acc d pos0 context path,
    skipn pos0 d = rest ->
    forallb (fun x => 0x80 <=? Py.ord x) rest = true ->
    (List.length rest < fuel)%nat ->
    RepeatUntil_loop (fun obj _ _ => Py.ord obj <? 0x80) Bytes1
                     fuel i acc (mkStream d pos0) context path
    = Some (Raise (EndOfStream path) (mkStream d (pos0 + List.length rest))
              (setitem context (Some "_index"%string)
                       (VInt (i + Z.of_nat (List.length rest))))).
Proof.
  induction rest as [|b rest IH];
    intros fuel i acc d pos0 context path Hd Hrest Hfuel;
    (destruct fuel as [|fuel]; [cbn in Hfuel; lia|]);
    cbn [RepeatUntil_loop]; cbv zeta.
  - rewrite (Bytes1_end d pos0 _ path Hd). cbn [List.length].
    rewrite Nat.add_0_r, Z.add_0_r. reflexivity.
  - rewrite (Bytes1_next d pos0 _ _ _ path Hd).
    cbn [forallb] in Hrest. apply andb_prop in Hrest.
    destruct Hrest as [Hb Hrest]. apply Z.leb_le in Hb.
    destruct (Z.ltb_spec (Py.ord b) 0x80); [lia|].
    rewrite (IH fuel (i + 1) (acc ++ [b]) d (pos0 + 1)%nat _ path).
    + rewrite setitem_setitem. cbn [List.length]. do 2 f_equal.
      * f_equal. lia.
      * do 2 f_equal. lia.
    + apply (skipn_next _ _ _ _ Hd).
    + exact Hrest.
    + cbn [List.length] in Hfuel. lia.
Qed.

(** X7: on a stream whose remaining bytes all have the high bit set (the
    empty remainder included), [ULEB128] and [SLEB128] raise [EndOfStream]
    after reading every byte: the cursor is left at the end of the stream
    and [_index] holds the number of bytes read. *)
Theorem LEB128_truncated_input (fuel : nat) (d : list byte) (pos0 : nat)
    (context : Container) (path : string) :
  forallb (fun x => 0x80 <=? Py.ord x) (skipn pos0 d) = true ->
  (List.length (skipn pos0 d) < fuel)%nat ->
  let failure :=
    Raise (EndOfStream path)
          (mkStream d (pos0 + List.length (skipn pos0 d)))
          (setitem context (Some "_index"%string)
                   (VInt (Z.of_nat (List.length (skipn pos0 d))))) in
  ULEB128 fuel (mkStream d pos0) context path = Some failure
  /\ SLEB128 fuel (mkStream d pos0) context path = Some failure
  /\ remaining (mkStream d (pos0 + List.length (skipn pos0 d))) = [].
Proof.
  intros Hall Hfuel failure.
  assert (Hreader :
            _LEB128_reader fuel (mkStream d pos0) context path
            = Some (Raise (EndOfStream path)
                      (mkStream d (pos0 + List.length (skipn pos0 d)))
                      (setitem context (Some "_index"%string)
                         (VInt (Z.of_nat (List.length (skipn pos0 d))))))).
  { unfold _LEB128_reader, RepeatUntil_parse.
    rewrite (LEB128_reader_loop_truncated (skipn pos0 d) fuel 0 [] d pos0
               context path eq_refl Hall Hfuel).
    reflexivity. }
  unfold ULEB128, SLEB128, Adapter_parse. rewrite Hreader.
  repeat split.
  unfold remaining. cbn [data pos].
  rewrite Nat.add_comm, <- skipn_skipn. apply skipn_all.
Qed.

Lemma LEB128_truncated_input_witness :
  ULEB128 3 (mkStream [x01; x80; xff] 1) [] "(parsing)"
  = Some (Raise (EndOfStream "(parsing)") (mkStream [x01; x80; xff] 3)
            [(Some "_index"%string, VInt 2)])
  /\ SLEB128 3 (mkStream [x01; x80; xff] 1) [] "(parsing)"
     = Some (Raise (EndOfStream "(parsing)") (mkStream [x01; x80; xff] 3)
               [(Some "_index"%string, VInt 2)])
  /\ remaining (mkStream [x01; x80; xff] 3) = [].
Proof.
  apply (LEB128_truncated_input 3 [x01; x80; xff] 1 [] "(parsing)"%string);
    [reflexivity | cbn; lia].
Defined.

Lemma byte_run_nonempty (run : list byte) :
  Spec.byte_run run = true -> run <> [].
Proof. destruct run; [discriminate | discriminate]. Qed.

Lemma SLEB128_decode_defined (obj : list byte) :
  obj <> [] -> exists v, _SLEB128Adapter_decode obj = Ok v.
Proof.
  intros Hne. destruct (exists_last Hne) as (init & t & ->).
  eexists. apply SLEB128_decode_run.
Qed.

(** X8: [SLEB128] never raises [IndexError]: the list that the reader hands
    to [_decode] is never empty, so [obj[-1]] is always defined.  The only
    exception that [SLEB128] and [ULEB128] raise is [EndOfStream], and only
    when every remaining byte has its high bit set; one iteration per
    remaining byte, and one more, are always enough for them to finish. *)
Theorem LEB128_only_fails_at_end_of_stream :
  (forall (fuel : nat) (stream : Stream) (context : Container) (path : string)
          (e : exn) (stream' : Stream) (context' : Container),
      SLEB128 fuel stream context path = Some (Raise e stream' context')
      \/ ULEB128 fuel stream context path = Some (Raise e stream' context') ->
      e = EndOfStream path
      /\ forallb (fun x => 0x80 <=? Py.ord x) (remaining stream) = true
      /\ remaining stream' = [])
  /\ (forall (extra : nat) (stream : Stream) (context : Container)
             (path : string),
         exists rs ru,
           SLEB128 (S (List.length (remaining stream)) + extra)
                   stream context path = Some rs
           /\ ULEB128 (S (List.length (remaining stream)) + extra)
                      stream context path = Some ru).
Proof.
  split.
  - intros fuel stream context path e stream' context' H.
    assert (Hreader : _LEB128_reader fuel stream context path
                      = Some (Raise e stream' context')).
    { unfold SLEB128, ULEB128, Adapter_parse in H.
      destruct (_LEB128_reader fuel stream context path)
        as [[obj s1 c1|e1 s1 c1]|] eqn:Hr.
      - exfalso.
        apply (LEB128_reader_loop_returns_run fuel 0 [] stream context path
                 obj s1 c1 eq_refl) in Hr.
        apply byte_run_nonempty in Hr.
        destruct (SLEB128_decode_defined obj Hr) as [v Hv].
        rewrite Hv in H. unfold _ULEB128Adapter_decode in H.
        destruct H as [H|H]; discriminate.
      - destruct H as [H|H]; injection H as -> -> ->; reflexivity.
      - destruct H as [H|H]; discriminate. }
    unfold _LEB128_reader, RepeatUntil_parse in Hreader.
    apply LEB128_reader_loop_raise in Hreader.
    destruct Hreader as (-> & Hall & ->).
    repeat split; [exact Hall|].
    unfold remaining. cbn [data pos].
    rewrite Nat.add_comm, <- skipn_skipn. apply skipn_all.
  - intros extra stream context path.
    destruct (LEB128_reader_loop_terminates
                (S (List.length (remaining stream)) + extra) 0 []
                stream context path ltac:(lia)) as [r Hr].
    unfold SLEB128, ULEB128, Adapter_parse, _LEB128_reader, RepeatUntil_parse.
    rewrite Hr. destruct r as [obj s1 c1|e1 s1 c1].
    + destruct (_SLEB128Adapter_decode obj); eexists; eexists;
        split; reflexivity.
    + eexists; eexists; split; reflexivity.
Qed.

Lemma LEB128_only_fails_at_end_of_stream_witness :
  EndOfStream "(parsing)" = EndOfStream "(parsing)"
  /\ forallb (fun x => 0x80 <=? Py.ord x) (remaining (mkStream [x81] 0)) = true
  /\ remaining (mkStream [x81] 1) = [].
Proof.
  apply (proj1 LEB128_only_fails_at_end_of_stream 2%nat (mkStream [x81] 0) []
           "(parsing)"%string (EndOfStream "(parsing)") (mkStream [x81] 1)
           [(Some "_index"%string, VInt 1)]).
  left. reflexivity.
Defined.

(** X9: when [ULEB128] returns, the bytes it consumed form a byte run
    (continuation bytes, then one byte with the high bit clear), the cursor
    has moved by the length of that run and by nothing else, and the value
    is the base-128 number of the run, which lies in [0 .. 2^(7k) - 1] for
    a run of [k] bytes. *)
Theorem ULEB128_parse_sound (fuel : nat) (stream : Stream)
    (context : Container) (path : string)
    (v : Z) (stream' : Stream) (context' : Container) :
  ULEB128 fuel stream context path = Some (Return v stream' context') ->
  exists run,
    Spec.byte_run run = true
    /\ remaining stream = run ++ remaining stream'
    /\ stream' = mkStream (data stream) (pos stream + List.length run)
    /\ _ULEB128Adapter_decode run = Ok v
    /\ 0 <= v < 2 ^ (7 * Z.of_nat (List.length run))
    /\ context' = setitem context (Some "_index"%string)
                          (VInt (Z.of_nat (List.length run) - 1)).
Proof.
  intros H. unfold ULEB128, Adapter_parse in H.
  destruct (_LEB128_reader fuel stream context path)
    as [[obj s1 c1|e1 s1 c1]|] eqn:Hr; try discriminate.
  unfold _ULEB128Adapter_decode in H. injection H as <- <- <-.
  pose proof (LEB128_reader_loop_returns_run fuel 0 [] stream context path
                obj s1 c1 eq_refl Hr) as Hrun.
  unfold _LEB128_reader, RepeatUntil_parse in Hr.
  apply LEB128_reader_loop_sound in Hr.
  destruct Hr as (run & -> & _ & Hrem & -> & ->).
  cbn [app] in *. exists run.
  rewrite fold_accumulate.
  repeat split; try assumption; try apply accumulate_bound.
  unfold _ULEB128Adapter_decode. rewrite fold_accumulate. reflexivity.
Qed.

Lemma ULEB128_parse_sound_witness :
  exists run,
    Spec.byte_run run = true
    /\ remaining (mkStream [xe5; x8e; x26; x07] 0)
       = run ++ remaining (mkStream [xe5; x8e; x26; x07] 3)
    /\ mkStream [xe5; x8e; x26; x07] 3
       = mkStream (data (mkStream [xe5; x8e; x26; x07] 0))
                  (pos (mkStream [xe5; x8e; x26; x07] 0) + List.length run)
    /\ _ULEB128Adapter_decode run = Ok 624485
    /\ 0 <= 624485 < 2 ^ (7 * Z.of_nat (List.length run))
    /\ [(Some "_index"%string, VInt 2)]
       = setitem [] (Some "_index"%string)
                 (VInt (Z.of_nat (List.length run) - 1)).
Proof.
  apply (ULEB128_parse_sound 5 (mkStream [xe5; x8e; x26; x07] 0) []
           "(parsing)"%string 624485 (mkStream [xe5; x8e; x26; x07] 3)
           [(Some "_index"%string, VInt 2)]).
  reflexivity.
Defined.

(** ** More on RepeatUntilExcluding *)

Section RepeatUntilExcludingMore.
Context {E : Type}.
Variable subcon : Parser E.
Variable path : string.

Lemma RepeatUntilExcluding_loop_rejects (p : E -> bool) (fuel : nat) :
  forall i acc stream context returned stream' context',
    forallb (fun e => negb (p e)) acc = true ->
    RepeatUntilExcluding_loop (given (fun e _ _ => p e)) subcon
                              fuel i acc stream context path
    = Some (Return returned stream' context') ->
    forallb (fun e => negb (p e)) returned = true.
Proof.
  induction fuel as [|fuel IH];
    intros i acc stream context returned stream' context' Hacc H;
    [discriminate|].
  cbn [RepeatUntilExcluding_loop] in H. cbv zeta in H.
  destruct (subcon stream _ path) as [e s1 c1|]; [|discriminate].
  cbn [call_predicate] in H. destruct (p e) eqn:Hp.
  - injection H as <- _ _. rewrite removelast_last. exact Hacc.
  - apply IH in H; [exact H|].
    rewrite forallb_app, Hacc. cbn [forallb]. rewrite Hp. reflexivity.
Qed.

Lemma RepeatUntilExcluding_loop_index (predicate : local_predicate)
    (fuel : nat) :
  keeps_context subcon ->
  forall i acc stream context r,
    RepeatUntilExcluding_loop predicate subcon fuel i acc stream context path
    = Some r ->
    match r with
    | Return returned _ context' =>
        exists seq,
          returned = acc ++ seq
          /\ context' = setitem context (Some "_index"%string)
                                (VInt (i + Z.of_nat (List.length seq)))
    | Raise e stream' context' =>
        exists k seq stream1 context1,
          invocations subcon k i stream context path
          = Some (seq, stream1, context1)
          /\ subcon stream1
                    (setitem context1 (Some "_index"%string)
                             (VInt (i + Z.of_nat k))) path
             = Raise e stream' context'
          /\ context' = setitem context (Some "_index"%string)
                                (VInt (i + Z.of_nat k))
    end.
Proof.
  intros Hkeeps. induction fuel as [|fuel IH];
    intros i acc stream context r H; [discriminate|].
  cbn [RepeatUntilExcluding_loop] in H. cbv zeta in H.
  pose proof (Hkeeps stream (setitem context (Some "_index"%string) (VInt i))
                     path) as Hk.
  destruct (subcon stream _ path) as [e s1 c1|e1 s1 c1] eqn:Hsub; subst c1.
  - destruct (call_predicate predicate e (acc ++ [e]) _).
    + injection H as <-. exists []. rewrite removelast_last, app_nil_r.
      cbn [List.length]. rewrite Z.add_0_r. split; reflexivity.
    + apply IH in H. destruct r as [returned s2 c2|e2 s2 c2].
      * destruct H as (seq & -> & ->). exists (e :: seq).
        rewrite <- app_assoc, setitem_setitem. cbn [app List.length].
        split; [reflexivity|]. do 2 f_equal. lia.
      * destruct H as (k & seq & s3 & c3 & Hinv & Hraise & ->).
        exists (S k), (e :: seq), s3, c3.
        replace (i + Z.of_nat (S k)) with (i + 1 + Z.of_nat k) by lia.
        split; [|split].
        -- cbn [invocations]. rewrite Hsub, Hinv. reflexivity.
        -- exact Hraise.
        -- apply setitem_setitem.
  - injection H as <-. exists 0%nat, [], stream, context.
    rewrite Z.add_0_r. split; [reflexivity|]. split; [exact Hsub | reflexivity].
Qed.

End RepeatUntilExcludingMore.

Lemma Bytes1_keeps_context : keeps_context Bytes1.
Proof.
  intros stream context path.
  destruct (Bytes1 stream context path) as [b s1 c1|e s1 c1] eqn:H.
  - apply Bytes1_Return_inv in H. tauto.
  - apply Bytes1_Raise_inv in H. tauto.
Qed.

(** X10: with a predicate that looks at the element alone, no element of
    the list that [RepeatUntilExcluding] returns satisfies the predicate,
    whatever the subcon is. *)
Theorem RepeatUntilExcluding_returns_rejected_elements
    (E : Type) (p : E -> bool) (subcon : Parser E) (fuel : nat)
    (stream : Stream) (context : Container) (path : string)
    (returned : list E) (stream' : Stream) (context' : Container) :
  RepeatUntilExcluding_parse (function (fun e _ _ => p e)) subcon fuel
                             stream context path
  = Some (Return returned stream' context') ->
  forallb (fun e => negb (p e)) returned = true.
Proof.
  intros H. unfold RepeatUntilExcluding_parse in H. cbn [bind_predicate] in H.
  apply (RepeatUntilExcluding_loop_rejects subcon path p fuel 0 [] stream
           context returned stream' context' eq_refl H).
Qed.

Lemma RepeatUntilExcluding_returns_rejected_elements_witness :
  forallb (fun e => negb (0x80 <=? Py.ord e)) [x01; x02] = true.
Proof.
  apply (RepeatUntilExcluding_returns_rejected_elements
           byte (fun e => 0x80 <=? Py.ord e) Bytes1 5
           (mkStream [x01; x02; xff; x03] 0) [] "(parsing)"%string
           [x01; x02] (mkStream [x01; x02; xff; x03] 3)
           [(Some "_index"%string, VInt 2)]).
  reflexivity.
Defined.

(** X11: when the subcon leaves the context alone, [RepeatUntilExcluding]
    changes the caller's context at [_index] only.  After a return,
    [_index] is the number of elements returned, the index of the iteration
    that ended the loop.  After an exception of the subcon, [_index] is the
    index of the iteration that raised: [k] invocations returned, the next
    one, run with [_index = k], raised the exception that the parse
    raises, and the context is the caller's with [_index = k].  This holds
    for callable and for non-callable predicates. *)
Theorem RepeatUntilExcluding_index_in_context
    (E : Type) (predicate : predicate_object (E := E)) (subcon : Parser E)
    (fuel : nat) (stream : Stream) (context : Container) (path : string)
    (r : outcome (list E)) :
  keeps_context subcon ->
  RepeatUntilExcluding_parse predicate subcon fuel stream context path
  = Some r ->
  match r with
  | Return returned _ context' =>
      context' = setitem context (Some "_index"%string)
                         (VInt (Z.of_nat (List.length returned)))
  | Raise e stream' context' =>
      exists (k : nat) (seq : list E) (stream1 : Stream) (context1 : Container),
        invocations subcon k 0 stream context path
        = Some (seq, stream1, context1)
        /\ subcon stream1
                  (setitem context1 (Some "_index"%string) (VInt (Z.of_nat k)))
                  path
           = Raise e stream' context'
        /\ context' = setitem context (Some "_index"%string)
                              (VInt (Z.of_nat k))
  end.
Proof.
  intros Hkeeps H. unfold RepeatUntilExcluding_parse in H.
  apply (RepeatUntilExcluding_loop_index subcon path _ fuel Hkeeps) in H.
  destruct r as [returned s1 c1|e s1 c1].
  - destruct H as (seq & -> & ->). reflexivity.
  - exact H.
Qed.

Lemma RepeatUntilExcluding_index_in_context_witness :
  [(Some "x"%string, VInt 7); (Some "_index"%string, VInt 2)]
  = setitem [(Some "x"%string, VInt 7)] (Some "_index"%string)
            (VInt (Z.of_nat (List.length [x01; x02])))
  /\ exists (k : nat) (seq : list byte) (stream1 : Stream)
            (context1 : Container),
      invocations Bytes1 k 0 (mkStream [x01; x02; x03] 0)
                  [(Some "x"%string, VInt 7)] "(parsing)"%string
      = Some (seq, stream1, context1)
      /\ Bytes1 stream1
                (setitem context1 (Some "_index"%string) (VInt (Z.of_nat k)))
                "(parsing)"%string
         = Raise (EndOfStream "(parsing)") (mkStream [x01; x02; x03] 3)
                 [(Some "x"%string, VInt 7); (Some "_index"%string, VInt 3)]
      /\ [(Some "x"%string, VInt 7); (Some "_index"%string, VInt 3)]
         = setitem [(Some "x"%string, VInt 7)] (Some "_index"%string)
                   (VInt (Z.of_nat k)).
Proof.
  split.
  - apply (RepeatUntilExcluding_index_in_context
             byte (function (fun e _ _ => Py.ord e =? 0)) Bytes1 5
             (mkStream [x01; x02; x00] 0) [(Some "x"%string, VInt 7)]
             "(parsing)"%string
             (Return [x01; x02] (mkStream [x01; x02; x00] 3)
                     [(Some "x"%string, VInt 7);
                      (Some "_index"%string, VInt 2)])
             Bytes1_keeps_context).
    reflexivity.
  - apply (RepeatUntilExcluding_index_in_context
             byte (function (fun e _ _ => Py.ord e =? 0)) Bytes1 5
             (mkStream [x01; x02; x03] 0) [(Some "x"%string, VInt 7)]
             "(parsing)"%string
             (Raise (EndOfStream "(parsing)") (mkStream [x01; x02; x03] 3)
                    [(Some "x"%string, VInt 7);
                     (Some "_index"%string, VInt 3)])
             Bytes1_keeps_context).
    reflexivity.
Defined.

Lemma RepeatUntilExcluding_loop_unterminated (p : byte -> bool)
    (rest : list byte) :
  forall fuel i acc d pos0 context path,
    skipn pos0 d = rest ->
    forallb (fun b => negb (p b)) rest = true ->
    (List.length rest < fuel)%nat ->
    RepeatUntilExcluding_loop (given (fun e _ _ => p e)) Bytes1
                              fuel i acc (mkStream d pos0) context path
    = Some (Raise (EndOfStream path) (mkStream d (pos0 + List.length rest))
              (setitem context (Some "_index"%string)
                       (VInt (i + Z.of_nat (List.length rest))))).
Proof.
  induction rest as [|b rest IH];
    intros fuel i acc d pos0 context path Hd Hrest Hfuel;
    (destruct fuel as [|fuel]; [cbn in Hfuel; lia|]);
    cbn [RepeatUntilExcluding_loop]; cbv zeta.
  - rewrite (Bytes1_end d pos0 _ path Hd). cbn [List.length].
    rewrite Nat.add_0_r, Z.add_0_r. reflexivity.
  - rewrite (Bytes1_next d pos0 _ _ _ path Hd). cbn [call_predicate].
    cbn [forallb] in Hrest. apply andb_prop in Hrest.
    destruct Hrest as [Hb Hrest]. apply negb_true_iff in Hb. rewrite Hb.
    rewrite (IH fuel (i + 1) (acc ++ [b]) d (pos0 + 1)%nat _ path).
    + rewrite setitem_setitem. cbn [List.length]. do 2 f_equal.
      * f_equal. lia.
      * do 2 f_equal. lia.
    + apply (skipn_next _ _ _ _ Hd).
    + exact Hrest.
    + cbn [List.length] in Hfuel. lia.
Qed.

(** X12: when no remaining byte satisfies the predicate,
    [RepeatUntilExcluding] over a one-byte subcon reads the stream to its
    end and raises [EndOfStream]: the bytes read are not returned, and the
    cursor stays at the end of the stream. *)
Theorem RepeatUntilExcluding_without_terminator (p : byte -> bool)
    (fuel : nat) (d : list byte) (pos0 : nat)
    (context : Container) (path : string) :
  forallb (fun b => negb (p b)) (skipn pos0 d) = true ->
  (List.length (skipn pos0 d) < fuel)%nat ->
  RepeatUntilExcluding_parse (function (fun e _ _ => p e)) Bytes1 fuel
                             (mkStream d pos0) context path
  = Some (Raise (EndOfStream path)
            (mkStream d (pos0 + List.length (skipn pos0 d)))
            (setitem context (Some "_index"%string)
                     (VInt (Z.of_nat (List.length (skipn pos0 d)))))).
Proof.
  intros Hall Hfuel. unfold RepeatUntilExcluding_parse. cbn [bind_predicate].
  rewrite (RepeatUntilExcluding_loop_unterminated p (skipn pos0 d) fuel 0 []
             d pos0 context path eq_refl Hall Hfuel).
  reflexivity.
Qed.

Lemma RepeatUntilExcluding_without_terminator_witness :
  RepeatUntilExcluding_parse (function (fun e _ _ => Py.ord e =? 0)) Bytes1 4
                             (mkStream [x01; x02; x03] 0) [] "(parsing)"
  = Some (Raise (EndOfStream "(parsing)") (mkStream [x01; x02; x03] 3)
            [(Some "_index"%string, VInt 3)]).
Proof.
  apply (RepeatUntilExcluding_without_terminator
           (fun e => Py.ord e =? 0) 4 [x01; x02; x03] 0 []
           "(parsing)"%string);
    [reflexivity | cbn; lia].
Defined.

(** ** What CStringBytes consumes *)

Lemma NullTerminated_loop_sound (fuel : nat) :
  forall acc stream context path r,
    NullTerminated_GreedyBytes_loop fuel acc stream context path = Some r ->
    match r with
    | Return returned stream' context' =>
        exists pre,
          returned = acc ++ pre
          /\ forallb (fun b => negb (Py.ord b =? 0)) pre = true
          /\ remaining stream = pre ++ x00 :: remaining stream'
          /\ stream' = mkStream (data stream)
                                (pos stream + List.length pre + 1)
          /\ context' = context
    | Raise e stream' context' =>
        e = EndOfStream path
        /\ forallb (fun b => negb (Py.ord b =? 0)) (remaining stream) = true
        /\ stream' = mkStream (data stream)
                              (pos stream + List.length (remaining stream))
        /\ context' = context
    end.
Proof.
  induction fuel as [|fuel IH]; intros acc stream context path r H;
    [discriminate|].
  cbn [NullTerminated_GreedyBytes_loop] in H.
  destruct (Bytes1 stream context path) as [b s1 c1|e1 s1 c1] eqn:Hb.
  - apply Bytes1_Return_inv in Hb. destruct Hb as (Hrem & -> & ->).
    destruct (Z.eqb_spec (Py.ord b) 0) as [Hz|Hnz].
    + injection H as <-. exists []. apply ord_zero in Hz. subst b.
      rewrite app_nil_r. cbn [List.length app forallb].
      rewrite Nat.add_0_r. repeat split. exact Hrem.
    + apply IH in H. destruct r as [returned s2 c2|e2 s2 c2].
      * destruct H as (pre & -> & Hpre & Hrem' & -> & ->).
        exists (b :: pre). cbn [data pos List.length forallb app] in *.
        rewrite <- app_assoc, Hpre. cbn [app].
        destruct (Z.eqb_spec (Py.ord b) 0); [contradiction|].
        repeat split.
        -- rewrite Hrem, Hrem'. reflexivity.
        -- f_equal. lia.
      * destruct H as (-> & Hall & -> & ->).
        cbn [data pos] in *. rewrite Hrem. cbn [forallb List.length].
        rewrite Hall.
        destruct (Z.eqb_spec (Py.ord b) 0); [contradiction|].
        repeat split. f_equal. lia.
  - injection H as <-.
    apply Bytes1_Raise_inv in Hb. destruct Hb as (-> & Hrem & -> & ->).
    rewrite Hrem. cbn [forallb List.length]. rewrite Nat.add_0_r.
    destruct stream; repeat split.
Qed.

(** X13: whatever [CStringBytes] returns holds no zero byte, the input at
    the cursor is that result followed by a zero byte and by what is left
    after the new cursor, and the cursor has moved by the length of the
    result plus one.  Its only exception is [EndOfStream], raised only when
    no zero byte is left in the stream, with the cursor at the end.  The
    context is never changed. *)
Theorem CStringBytes_parse_sound (fuel : nat) (stream : Stream)
    (context : Container) (path : string) (r : outcome (list byte)) :
  CStringBytes fuel stream context path = Some r ->
  match r with
  | Return returned stream' context' =>
      forallb (fun b => negb (Py.ord b =? 0)) returned = true
      /\ remaining stream = returned ++ x00 :: remaining stream'
      /\ stream' = mkStream (data stream)
                            (pos stream + List.length returned + 1)
      /\ context' = context
  | Raise e stream' context' =>
      e = EndOfStream path
      /\ forallb (fun b => negb (Py.ord b =? 0)) (remaining stream) = true
      /\ stream' = mkStream (data stream)
                            (pos stream + List.length (remaining stream))
      /\ context' = context
  end.
Proof.
  intros H. unfold CStringBytes, NullTerminated_GreedyBytes_parse in H.
  apply NullTerminated_loop_sound in H.
  destruct r as [returned s1 c1|e s1 c1]; [|exact H].
  destruct H as (pre & -> & H). exact H.
Qed.

Lemma CStringBytes_parse_sound_witness :
  forallb (fun b => negb (Py.ord b =? 0)) [x61; x62] = true
  /\ remaining (mkStream [x61; x62; x00; x63] 0)
     = [x61; x62] ++ x00 :: remaining (mkStream [x61; x62; x00; x63] 3)
  /\ mkStream [x61; x62; x00; x63] 3
     = mkStream (data (mkStream [x61; x62; x00; x63] 0))
                (pos (mkStream [x61; x62; x00; x63] 0)
                 + List.length [x61; x62] + 1)
  /\ parse_stream_context = parse_stream_context.
Proof.
  apply (CStringBytes_parse_sound 5 (mkStream [x61; x62; x00; x63] 0)
           parse_stream_context "(parsing)"%string
           (Return [x61; x62] (mkStream [x61; x62; x00; x63] 3)
                   parse_stream_context)).
  reflexivity.
Defined.

(** ** More on EmbeddableStruct *)





(** X15: an exception other than the stop signal, raised by a field after
    the fields before it have completed, ends the parse of an
    [EmbeddableStruct] with that exception: no partial mapping is returned,
    the stream stays where the failing field left it, and the fields after
    it are not run. *)
Theorem EmbeddableStruct_propagates_errors
    (pre : list Construct) (sc : Construct) (post : list Construct)
    (stream : Stream) (context : Container) (path : string)
    (child obj1 : Container) (stream1 : Stream) (context1 : Container)
    (e : exn) (stream2 : Stream) (context2 : Container) :
  struct_context context true = Ok child ->
  EmbeddableStruct_fields pre
    (setitem [] (Some "_io"%string) (VRef the_stream)) stream child path
  = Completed obj1 stream1 context1 ->
  _parsereport sc stream1 context1 path = Raise e stream2 context2 ->
  e <> StopFieldError ->
  EmbeddableStruct_parse (pre ++ sc :: post) stream context path
  = Raise e stream2 context.
Proof.
  intros Hchild Hpre Hraise He. unfold EmbeddableStruct_parse.
  rewrite Hchild, EmbeddableStruct_fields_app, Hpre.
  cbn [EmbeddableStruct_fields]. rewrite Hraise.
  destruct e; try reflexivity. contradiction.
Qed.

Lemma EmbeddableStruct_propagates_errors_witness :
  EmbeddableStruct_parse
    ([Renamed "a" Byte] ++ Renamed "b" Byte :: [Renamed "c" Byte])
    (mkStream [x07] 0) parse_stream_context "(parsing)"%string
  = Raise (EndOfStream "(parsing) -> b") (mkStream [x07] 1)
          parse_stream_context.
Proof.
  eapply (EmbeddableStruct_propagates_errors
            [Renamed "a" Byte] (Renamed "b" Byte) [Renamed "c" Byte]);
    [reflexivity | reflexivity | reflexivity | discriminate].
Defined.

(** X16: [EmbeddableStruct._parse] reads [_params], [_parsing], [_building]
    and [_sizing] from the caller's context, in this order; when one of
    them is absent it raises [AttributeError] for the first one missing,
    before any field is run, so that nothing is read from the stream.
    With the four present, a struct without fields returns the mapping that
    holds [_io] alone and reads nothing. *)
Theorem EmbeddableStruct_needs_runtime_context
    (subcons : list Construct) (stream : Stream) (context : Container)
    (path : string) :
  (getitem context (Some "_params"%string) = None ->
   EmbeddableStruct_parse subcons stream context path
   = Raise (AttributeError "_params") stream context)
  /\ (getitem context (Some "_params"%string) <> None ->
      getitem context (Some "_parsing"%string) = None ->
      EmbeddableStruct_parse subcons stream context path
      = Raise (AttributeError "_parsing") stream context)
  /\ (getitem context (Some "_params"%string) <> None ->
      getitem context (Some "_parsing"%string) <> None ->
      getitem context (Some "_building"%string) = None ->
      EmbeddableStruct_parse subcons stream context path
      = Raise (AttributeError "_building") stream context)
  /\ (getitem context (Some "_params"%string) <> None ->
      getitem context (Some "_parsing"%string) <> None ->
      getitem context (Some "_building"%string) <> None ->
      getitem context (Some "_sizing"%string) = None ->
      EmbeddableStruct_parse subcons stream context path
      = Raise (AttributeError "_sizing") stream context)
  /\ (getitem context (Some "_params"%string) <> None ->
      getitem context (Some "_parsing"%string) <> None ->
      getitem context (Some "_building"%string) <> None ->
      getitem context (Some "_sizing"%string) <> None ->
      EmbeddableStruct_parse [] stream context path
      = Return (PContainer [(Some "_io"%string, VRef the_stream)])
               stream context).
Proof.
  unfold EmbeddableStruct_parse, struct_context, getattr.
  destruct (getitem context (Some "_params"%string));
    destruct (getitem context (Some "_parsing"%string));
    destruct (getitem context (Some "_building"%string));
    destruct (getitem context (Some "_sizing"%string));
    repeat split; intros; try congruence; reflexivity.
Qed.

Lemma EmbeddableStruct_needs_runtime_context_witness :
  EmbeddableStruct_parse [Renamed "a" Byte] (mkStream [x07] 0)
    [(Some "_params"%string, VRef the_params)] "(parsing)"%string
  = Raise (AttributeError "_parsing") (mkStream [x07] 0)
          [(Some "_params"%string, VRef the_params)].
Proof.
  apply (proj1 (proj2 (EmbeddableStruct_needs_runtime_context
                         [Renamed "a" Byte] (mkStream [x07] 0)
                         [(Some "_params"%string, VRef the_params)]
                         "(parsing)"%string)));
    [discriminate | reflexivity].
Defined.

(** X17: [Embed] around a construct that returns [None], a [bool], an
    [int] or a [bytes] object instead of a [Container]: a result that is
    false ([None], [False], [0], [b""]) is dropped without a trace, and a
    result that is true makes [obj.update] fail, so that the struct raises
    [TypeError] after the field has consumed its input. *)
Theorem Embed_of_non_mapping
    (pre : list Construct) (sc : Construct) (post : list Construct)
    (stream : Stream) (context : Container) (path : string)
    (child obj1 : Container) (stream1 : Stream) (context1 : Container)
    (v : parsed) (stream2 : Stream) (context2 : Container) :
  struct_context context true = Ok child ->
  EmbeddableStruct_fields pre
    (setitem [] (Some "_io"%string) (VRef the_stream)) stream child path
  = Completed obj1 stream1 context1 ->
  truthy_name (name sc) = false ->
  isinstance_Embed sc = true ->
  _parsereport sc stream1 context1 path = Return v stream2 context2 ->
  (forall items, v <> PContainer items) ->
  (truthy v = true ->
   EmbeddableStruct_parse (pre ++ sc :: post) stream context path
   = Raise TypeError stream2 context)
  /\ (truthy v = false ->
      EmbeddableStruct_fields (pre ++ sc :: post)
        (setitem [] (Some "_io"%string) (VRef the_stream)) stream child path
      = EmbeddableStruct_fields post obj1 stream2 context2 path).
Proof.
  intros Hchild Hpre Hname Hembed Hret Hv. split; intros Ht.
  - unfold EmbeddableStruct_parse.
    rewrite Hchild, EmbeddableStruct_fields_app, Hpre.
    cbn [EmbeddableStruct_fields]. rewrite Hret, Hname, Ht, Hembed.
    cbn [andb]. destruct v; try reflexivity.
    exfalso. apply (Hv items). reflexivity.
  - rewrite EmbeddableStruct_fields_app, Hpre.
    cbn [EmbeddableStruct_fields]. rewrite Hret, Hname, Ht. reflexivity.
Qed.

Lemma Embed_of_non_mapping_witness :
  let fields := [Renamed "a" Byte] ++ Embed Byte :: [Renamed "c" Byte] in
  let io := setitem [] (Some "_io"%string) (VRef the_stream) in
  let child :=
    match struct_context parse_stream_context true with
    | Ok c => c
    | Error _ => []
    end in
  (truthy (PInt 5) = true ->
   EmbeddableStruct_parse fields (mkStream [x07; x05; x09] 0)
                          parse_stream_context "(parsing)"%string
   = Raise TypeError (mkStream [x07; x05; x09] 2) parse_stream_context)
  /\ (truthy (PInt 5) = false ->
      EmbeddableStruct_fields fields io (mkStream [x07; x05; x09] 0) child
                              "(parsing)"%string
      = EmbeddableStruct_fields [Renamed "c" Byte]
          (setitem io (Some "a"%string) (VInt 7))
          (mkStream [x07; x05; x09] 2)
          (setitem child (Some "a"%string) (VInt 7)) "(parsing)"%string).
Proof.
  intros fields io child.
  apply (Embed_of_non_mapping
           [Renamed "a" Byte] (Embed Byte) [Renamed "c" Byte]
           (mkStream [x07; x05; x09] 0) parse_stream_context
           "(parsing)"%string child (setitem io (Some "a"%string) (VInt 7))
           (mkStream [x07; x05; x09] 1)
           (setitem child (Some "a"%string) (VInt 7))
           (PInt 5) (mkStream [x07; x05; x09] 2)
           (setitem child (Some "a"%string) (VInt 7)));
    try reflexivity.
  discriminate.
Defined.

(** ** The context that the fields of a struct see *)

Lemma field_names_cons (sc : Construct) (subcons : list Construct) :
  field_names (sc :: subcons)
  = if truthy_name (name sc)
    then name sc :: field_names subcons
    else field_names subcons.
Proof.
  unfold field_names. cbn [filter].
  destruct (truthy_name (name sc)); reflexivity.
Qed.

Lemma EmbeddableStruct_fields_context_frame (subcons : list Construct) :
  (forall sc, In sc subcons -> keeps_context (_parsereport sc)) ->
  forall obj stream context path (k : key),
    ~ In k (field_names subcons) ->
    match EmbeddableStruct_fields subcons obj stream context path with
    | Completed _ _ context' => getitem context' k = getitem context k
    | Stopped _ _ context' => getitem context' k = getitem context k
    | Failed _ _ context' => getitem context' k = getitem context k
    end.
Proof.
  induction subcons as [|sc subcons IH];
    intros Hkeeps obj stream context path k Hk; [reflexivity|].
  cbn [EmbeddableStruct_fields].
  pose proof (Hkeeps sc (or_introl eq_refl) stream context path) as Hsc.
  assert (Hrest : forall sc', In sc' subcons -> keeps_context (_parsereport sc'))
    by (intros sc' Hin; apply Hkeeps; right; exact Hin).
  rewrite field_names_cons in Hk.
  destruct (_parsereport sc stream context path) as [subobj s1 c1|e s1 c1];
    subst c1.
  - destruct (truthy_name (name sc)) eqn:Hname.
    + specialize (IH Hrest (setitem obj (name sc) (to_value subobj)) s1
                     (setitem context (name sc) (to_value subobj)) path k
                     ltac:(intros Hin; apply Hk; right; exact Hin)).
      assert (Hne : key_eqb (name sc) k = false).
      { destruct (key_eqb (name sc) k) eqn:E; [|reflexivity].
        apply key_eqb_eq in E. exfalso. apply Hk. left. exact E. }
      rewrite getitem_setitem, Hne in IH. exact IH.
    + destruct (truthy subobj && isinstance_Embed sc).
      * destruct (dict_update obj subobj); [|reflexivity].
        apply (IH Hrest); exact Hk.
      * apply (IH Hrest); exact Hk.
  - destruct e; reflexivity.
Qed.

Lemma Byte_keeps_context : keeps_context (_parsereport Byte).
Proof.
  intros stream context path. cbn [_parsereport Byte].
  pose proof (Bytes1_keeps_context stream context path) as H.
  destruct (Bytes1 stream context path); exact H.
Qed.

Lemma Renamed_keeps_context (newname : string) (subcon : Construct) :
  keeps_context (_parsereport subcon) ->
  keeps_context (_parsereport (Renamed newname subcon)).
Proof.
  intros H stream context path. cbn [_parsereport Renamed]. apply H.
Qed.

Lemma Struct_keeps_context (subcons : list Construct) :
  keeps_context (_parsereport (Struct subcons)).
Proof.
  intros stream context path. cbn [_parsereport Struct]. unfold Struct_parse.
  destruct (struct_context context false); [|reflexivity].
  destruct (Struct_fields subcons _ stream _ path); reflexivity.
Qed.

Lemma EmbeddableStruct_keeps_context (subcons : list Construct) :
  keeps_context (_parsereport (EmbeddableStruct subcons)).
Proof.
  intros stream context path. cbn [_parsereport EmbeddableStruct].
  unfold EmbeddableStruct_parse.
  destruct (struct_context context true); [|reflexivity].
  destruct (EmbeddableStruct_fields subcons _ stream _ path); reflexivity.
Qed.

Lemma Embed_keeps_context (subcon : Construct) :
  keeps_context (_parsereport subcon) ->
  keeps_context (_parsereport (Embed subcon)).
Proof. intros H. exact H. Qed.

(** X18: the field loop of [EmbeddableStruct] writes to the context under
    the names of its named fields and nowhere else, as long as the fields
    themselves leave the context alone: the names of the fields of an
    embedded sub-schema are merged into the result but are never put in the
    context, so that later siblings cannot look them up there. *)
Theorem EmbeddableStruct_context_frame (subcons : list Construct)
    (obj : Container) (stream : Stream) (context : Container) (path : string)
    (k : key) :
  (forall sc, In sc subcons -> keeps_context (_parsereport sc)) ->
  ~ In k (field_names subcons) ->
  match EmbeddableStruct_fields subcons obj stream context path with
  | Completed _ _ context' => getitem context' k = getitem context k
  | Stopped _ _ context' => getitem context' k = getitem context k
  | Failed _ _ context' => getitem context' k = getitem context k
  end.
Proof.
  intros Hkeeps Hk.
  apply EmbeddableStruct_fields_context_frame; assumption.
Qed.

Lemma EmbeddableStruct_context_frame_witness :
  let subcons :=
    [ Renamed "a" Byte;
      Embed (EmbeddableStruct [Renamed "b" Byte]);
      Renamed "c" Byte ] in
  match EmbeddableStruct_fields subcons [] (mkStream [x01; x02; x03] 0)
                                parse_stream_context "(parsing)"%string with
  | Completed obj' _ context' =>
      getitem context' (Some "b"%string)
      = getitem parse_stream_context (Some "b"%string)
  | Stopped _ _ context' =>
      getitem context' (Some "b"%string)
      = getitem parse_stream_context (Some "b"%string)
  | Failed _ _ context' =>
      getitem context' (Some "b"%string)
      = getitem parse_stream_context (Some "b"%string)
  end.
Proof.
  intros subcons.
  apply (EmbeddableStruct_context_frame subcons [] (mkStream [x01; x02; x03] 0)
           parse_stream_context "(parsing)"%string (Some "b"%string)).
  - intros sc [<-|[<-|[<-|[]]]].
    + apply Renamed_keeps_context, Byte_keeps_context.
    + apply Embed_keeps_context, EmbeddableStruct_keeps_context.
    + apply Renamed_keeps_context, Byte_keeps_context.
  - cbn. intros [H|[H|[]]]; discriminate H.
Defined.

(** X19: a [StreamOffset] placed as a named field after other fields stores
    the offset at which those fields ended, in the result and in the
    context, and consumes nothing: the next field starts at that offset. *)
Theorem StreamOffset_as_field
    (pre post : list Construct) (newname : string)
    (obj : Container) (stream : Stream) (context : Container) (path : string)
    (obj1 : Container) (stream1 : Stream) (context1 : Container) :
  newname <> EmptyString ->
  EmbeddableStruct_fields pre obj stream context path
  = Completed obj1 stream1 context1 ->
  EmbeddableStruct_fields (pre ++ Renamed newname StreamOffset :: post)
                          obj stream context path
  = EmbeddableStruct_fields post
      (setitem obj1 (Some newname) (VInt (Z.of_nat (pos stream1))))
      stream1
      (setitem context1 (Some newname) (VInt (Z.of_nat (pos stream1))))
      path.
Proof.
  intros Hname Hpre. rewrite EmbeddableStruct_fields_app, Hpre.
  cbn [EmbeddableStruct_fields _parsereport Renamed StreamOffset name].
  unfold StreamOffset_parse, tell. cbn [truthy_name].
  destruct (String.eqb_spec newname EmptyString) as [E|_]; [contradiction|].
  reflexivity.
Qed.

Lemma StreamOffset_as_field_witness :
  EmbeddableStruct_fields
    ([Renamed "a" Byte] ++ Renamed "off" StreamOffset :: [Renamed "b" Byte])
    [] (mkStream [x09; x07; x05] 1) parse_stream_context "(parsing)"%string
  = EmbeddableStruct_fields [Renamed "b" Byte]
      (setitem [(Some "a"%string, VInt 7)] (Some "off"%string)
               (VInt (Z.of_nat (pos (mkStream [x09; x07; x05] 2)))))
      (mkStream [x09; x07; x05] 2)
      (setitem (parse_stream_context ++ [(Some "a"%string, VInt 7)])
               (Some "off"%string)
               (VInt (Z.of_nat (pos (mkStream [x09; x07; x05] 2)))))
      "(parsing)"%string.
Proof.
  apply (StreamOffset_as_field [Renamed "a" Byte] [Renamed "b" Byte] "off"
           [] (mkStream [x09; x07; x05] 1) parse_stream_context
           "(parsing)"%string);
    [discriminate | reflexivity].
Defined.

(** ** ULEB128 and SLEB128 side by side *)

(** X20: [ULEB128] and [SLEB128] read the same bytes: when [ULEB128]
    returns [u] after consuming [k] bytes, [SLEB128] on the same stream
    consumes the same [k] bytes, leaves the same stream and context, and
    returns [u] read as a two's complement number of [7k] bits. *)
Theorem SLEB128_follows_ULEB128 (fuel : nat) (stream : Stream)
    (context : Container) (path : string)
    (u : Z) (stream' : Stream) (context' : Container) :
  ULEB128 fuel stream context path = Some (Return u stream' context') ->
  exists k : nat,
    (0 < k)%nat
    /\ stream' = mkStream (data stream) (pos stream + k)
    /\ SLEB128 fuel stream context path
       = Some (Return (twos_complement (7 * Z.of_nat k) u) stream' context').
Proof.
  intros H. unfold ULEB128, SLEB128, Adapter_parse in *.
  destruct (_LEB128_reader fuel stream context path)
    as [[obj s1 c1|e1 s1 c1]|] eqn:Hr; try discriminate.
  unfold _ULEB128Adapter_decode in H. injection H as <- <- <-.
  pose proof (LEB128_reader_loop_returns_run fuel 0 [] stream context path
                obj s1 c1 eq_refl Hr) as Hrun.
  apply byte_run_nonempty in Hrun.
  unfold _LEB128_reader, RepeatUntil_parse in Hr.
  apply LEB128_reader_loop_sound in Hr.
  destruct Hr as (run & -> & _ & _ & -> & _). cbn [app] in *.
  exists (List.length run). split; [|split].
  - destruct run; [congruence | cbn; lia].
  - reflexivity.
  - destruct (exists_last Hrun) as (init & t & ->).
    rewrite SLEB128_decode_twos_complement, fold_accumulate. reflexivity.
Qed.

Lemma SLEB128_follows_ULEB128_witness :
  exists k : nat,
    (0 < k)%nat
    /\ mkStream [xff; x7e; x01] 2
       = mkStream (data (mkStream [xff; x7e; x01] 0))
                  (pos (mkStream [xff; x7e; x01] 0) + k)
    /\ SLEB128 4 (mkStream [xff; x7e; x01] 0) [] "(parsing)"
       = Some (Return (twos_complement (7 * Z.of_nat k) 16255)
                 (mkStream [xff; x7e; x01] 2)
                 [(Some "_index"%string, VInt 1)]).
Proof.
  apply (SLEB128_follows_ULEB128 4 (mkStream [xff; x7e; x01] 0) []
           "(parsing)"%string 16255 (mkStream [xff; x7e; x01] 2)
           [(Some "_index"%string, VInt 1)]).
  reflexivity.
Defined.
